(** * The multi-agent visualization critic: workflow core and job supervisor

    A shallow embedding of [main.py] (code extractor, sandboxed executor,
    evaluation parser, the coder / executor / critic nodes, the convergence
    policy and the graph that links them) and of the job lifecycle of
    [api.py] (the in-memory job store, [cancel_job], [run_job]).

    Everything outside the program is an input of the functions below: the
    reply (or failure) of a language-model call, what the operating system
    did with the scratch file and the child process, the clock, and the JSON
    decoder of the standard library. *)

From Stdlib Require Import ZArith QArith Ascii String Bool Lia.
From stdpp Require Import gmap strings list.

Local Open Scope Z_scope.
Set Warnings "-register-all".

(** ** Strings

    A text is the sequence of its bytes (UTF-8). Every delimiter the program
    searches for is ASCII, so a search over bytes finds what a search over
    characters finds. *)

Definition nl : string := String "010"%char "".
Definition dq : string := String "034"%char "".

(** [strip_prefix p s] is the rest of [s] after its prefix [p], when [s]
    starts with [p]. *)
Fixpoint strip_prefix (p s : string) : option string :=
  match p, s with
  | EmptyString, _ => Some s
  | String _ _, EmptyString => None
  | String a p', String b s' => if Ascii.eqb a b then strip_prefix p' s' else None
  end.

(** [find_first p s] splits [s] around the leftmost occurrence of the literal
    [p]: the text before it and the text after it. *)
Fixpoint find_first (p s : string) {struct s} : option (string * string) :=
  match strip_prefix p s with
  | Some rest => Some (EmptyString, rest)
  | None =>
      match s with
      | EmptyString => None
      | String c s' =>
          match find_first p s' with
          | Some (before, after) => Some (String c before, after)
          | None => None
          end
      end
  end.

(** [find_last_char c s] splits [s] around the last occurrence of the
    character [c]. *)
Fixpoint find_last_char (c : ascii) (s : string) : option (string * string) :=
  match s with
  | EmptyString => None
  | String x s' =>
      match find_last_char c s' with
      | Some (before, after) => Some (String x before, after)
      | None => if Ascii.eqb x c then Some (EmptyString, s') else None
      end
  end.

(** ** Regular expressions of [main.py]

    The program uses three patterns, all compiled with [re.DOTALL], so that
    [.] matches every character, newlines included.

    [re.findall(opening + "(.*?)" + closing, text, re.DOTALL)] with literal
    [opening] and [closing]: the scan starts a match at the leftmost
    position where the whole pattern can match. An occurrence of [closing]
    behind a later [opening] is also behind the first [opening], so that
    position is the first occurrence of [opening]; the lazy group then stops
    at the nearest [closing] behind it. [re_findall_lazy_first] is element 0
    of the list [findall] returns, [None] when the list is empty. *)
Definition re_findall_lazy_first (opening closing text : string) : option string :=
  match find_first opening text with
  | Some (_, rest) =>
      match find_first closing rest with
      | Some (group, _) => Some group
      | None => None
      end
  | None => None
  end.

(** [re.search(r'\{.*\}', text, re.DOTALL)]: the match starts at the first
    opening brace that has a closing brace behind it, which is the first
    opening brace, and the greedy star runs to the last closing brace of the
    text. The result is [match.group(0)], braces included. *)
Definition re_search_braces (text : string) : option string :=
  match find_first "{" text with
  | Some (_, rest) =>
      match find_last_char "}"%char rest with
      | Some (inner, _) => Some ("{" +:+ inner +:+ "}")
      | None => None
      end
  | None => None
  end.

(** ** Code extractor ([extract_code_block]) *)

Definition fence_python : string := "```python" +:+ nl.
Definition fence_bare : string := "```" +:+ nl.
Definition fence_close : string := nl +:+ "```".

Definition extract_code_block (text : string) : string :=
  match re_findall_lazy_first fence_python fence_close text with
  | Some m => m
  | None =>
      match re_findall_lazy_first fence_bare fence_close text with
      | Some m => m
      | None => text
      end
  end.

(** ** Python values

    The dictionaries of the program hold what [json.loads] and the nodes put
    in them: [None], booleans, integers, floats, strings, lists and
    dictionaries. A float is given by its exact value; the program never
    computes with one, it only compares the score with [8.0]. A dictionary
    keeps its items in insertion order. *)

Inductive pyfloat :=
| FFinite (q : Q)
| FInf (positive : bool)
| FNaN.

Inductive pyval :=
| PNone
| PBool (b : bool)
| PInt (z : Z)
| PFloat (f : pyfloat)
| PStr (s : string)
| PList (items : list pyval)
| PDict (items : list (string * pyval)).

Definition dict : Type := list (string * pyval).

(** [d.get(key)], [None] of the option standing for Python's [None]. *)
Fixpoint dict_get (key : string) (d : dict) : option pyval :=
  match d with
  | [] => None
  | (k, v) :: d' => if String.eqb k key then Some v else dict_get key d'
  end.

(** [d.get(key, default)]. *)
Definition dict_get_default (key : string) (default : pyval) (d : dict) : pyval :=
  match dict_get key d with
  | Some v => v
  | None => default
  end.

(** [v == s] for a string literal [s], where [v] is the result of
    [d.get(key)]. *)
Definition eq_str (v : option pyval) (s : string) : bool :=
  match v with
  | Some (PStr x) => String.eqb x s
  | _ => false
  end.

(** A call either returns or raises; [Raises] carries [str(e)]. *)
Inductive outcome (A : Type) :=
| Returns (a : A)
| Raises (e : string).

Arguments Returns {A} a.
Arguments Raises {A} e.

Definition bind {A B : Type} (m : outcome A) (k : A -> outcome B) : outcome B :=
  match m with
  | Returns a => k a
  | Raises e => Raises e
  end.

(** [try: m except Exception as e: handler(e)]. *)
Definition try_except {A : Type} (m : outcome A) (handler : string -> outcome A) : outcome A :=
  match m with
  | Returns a => Returns a
  | Raises e => handler e
  end.

Notation "'do' x <- m ; k" := (bind m (fun x => k))
  (at level 10, x name, m at level 99, k at level 200).

(** [v >= 8.0]. Integers and floats compare by value, [True] and [False] as
    1 and 0, a NaN compares false; any other operand raises [TypeError]. *)
Definition ge_8 (v : pyval) : outcome bool :=
  match v with
  | PInt z => Returns (8 <=? z)
  | PBool _ => Returns false
  | PFloat (FFinite q) => Returns (Qle_bool (8 # 1) q)
  | PFloat (FInf positive) => Returns positive
  | PFloat FNaN => Returns false
  | PNone => Raises "'>=' not supported between instances of 'NoneType' and 'float'"
  | PStr _ => Raises "'>=' not supported between instances of 'str' and 'float'"
  | PList _ => Raises "'>=' not supported between instances of 'list' and 'float'"
  | PDict _ => Raises "'>=' not supported between instances of 'dict' and 'float'"
  end.

(** ** State of the workflow ([VisualizationState]) *)

Record VisualizationState := {
  user_request : string;
  dataset_url : string;
  iteration : Z;
  max_iterations : Z;
  generated_code : string;
  execution_result : dict;
  critic_evaluation : dict;
  final_viz_path : string;
  status : string;
  error_message : pyval
}.

Definition set_iteration (n : Z) (s : VisualizationState) : VisualizationState :=
  {| user_request := user_request s; dataset_url := dataset_url s;
     iteration := n; max_iterations := max_iterations s;
     generated_code := generated_code s; execution_result := execution_result s;
     critic_evaluation := critic_evaluation s; final_viz_path := final_viz_path s;
     status := status s; error_message := error_message s |}.

Definition set_generated_code (c : string) (s : VisualizationState) : VisualizationState :=
  {| user_request := user_request s; dataset_url := dataset_url s;
     iteration := iteration s; max_iterations := max_iterations s;
     generated_code := c; execution_result := execution_result s;
     critic_evaluation := critic_evaluation s; final_viz_path := final_viz_path s;
     status := status s; error_message := error_message s |}.

Definition set_execution_result (r : dict) (s : VisualizationState) : VisualizationState :=
  {| user_request := user_request s; dataset_url := dataset_url s;
     iteration := iteration s; max_iterations := max_iterations s;
     generated_code := generated_code s; execution_result := r;
     critic_evaluation := critic_evaluation s; final_viz_path := final_viz_path s;
     status := status s; error_message := error_message s |}.

Definition set_critic_evaluation (e : dict) (s : VisualizationState) : VisualizationState :=
  {| user_request := user_request s; dataset_url := dataset_url s;
     iteration := iteration s; max_iterations := max_iterations s;
     generated_code := generated_code s; execution_result := execution_result s;
     critic_evaluation := e; final_viz_path := final_viz_path s;
     status := status s; error_message := error_message s |}.

Definition set_final_viz_path (p : string) (s : VisualizationState) : VisualizationState :=
  {| user_request := user_request s; dataset_url := dataset_url s;
     iteration := iteration s; max_iterations := max_iterations s;
     generated_code := generated_code s; execution_result := execution_result s;
     critic_evaluation := critic_evaluation s; final_viz_path := p;
     status := status s; error_message := error_message s |}.

Definition set_status (x : string) (s : VisualizationState) : VisualizationState :=
  {| user_request := user_request s; dataset_url := dataset_url s;
     iteration := iteration s; max_iterations := max_iterations s;
     generated_code := generated_code s; execution_result := execution_result s;
     critic_evaluation := critic_evaluation s; final_viz_path := final_viz_path s;
     status := x; error_message := error_message s |}.

Definition set_error_message (m : pyval) (s : VisualizationState) : VisualizationState :=
  {| user_request := user_request s; dataset_url := dataset_url s;
     iteration := iteration s; max_iterations := max_iterations s;
     generated_code := generated_code s; execution_result := execution_result s;
     critic_evaluation := critic_evaluation s; final_viz_path := final_viz_path s;
     status := status s; error_message := m |}.

(** ** Sandboxed executor ([execute_code_safely])

    The file system is the set of paths that exist. What the operating
    system answers during one call is a [process_outcome]; the child's own
    effects on the file system are left out. *)

Inductive process_outcome :=
| OpenRaises (e : string)
| WriteRaises (e : string)
| RunRaises (e : string)
| RunTimesOut
| RunCompletes (returncode : Z) (stdout stderr : string).

(** The exceptions the two handlers of [execute_code_safely] tell apart. *)
Inductive exec_exception :=
| TimeoutExpired
| OtherException (e : string).

Record CompletedProcess := {
  returncode : Z;
  stdout : string;
  stderr : string
}.

(** [f"/tmp/viz_code_{datetime.now().timestamp()}.py"], [now] being the
    rendered timestamp. *)
Definition temp_file_name (now : string) : string :=
  "/tmp/viz_code_" +:+ now +:+ ".py".

(** [with open(temp_file, 'w') as f: f.write(code)]: opening creates the
    file; a failed write leaves it behind. *)
Definition write_code (temp_file : string) (env : process_outcome) (fs : gset string)
  : gset string * (exec_exception + unit) :=
  match env with
  | OpenRaises e => (fs, inl (OtherException e))
  | WriteRaises e => ({[temp_file]} ∪ fs, inl (OtherException e))
  | _ => ({[temp_file]} ∪ fs, inr tt)
  end.

(** [subprocess.run(["python", temp_file], timeout=timeout, ...)]. *)
Definition subprocess_run (env : process_outcome) : exec_exception + CompletedProcess :=
  match env with
  | RunCompletes rc out err => inr {| returncode := rc; stdout := out; stderr := err |}
  | RunTimesOut => inl TimeoutExpired
  | RunRaises e => inl (OtherException e)
  | OpenRaises e | WriteRaises e => inl (OtherException e)
  end.

(** [if os.path.exists(temp_file): os.remove(temp_file)]. *)
Definition clean_up (temp_file : string) (fs : gset string) : gset string :=
  if decide (temp_file ∈ fs) then fs ∖ {[temp_file]} else fs.

(** The body of the [try] block. *)
Definition execute_code_body (fs : gset string) (now code : string) (env : process_outcome)
  : gset string * (exec_exception + dict) :=
  let temp_file := temp_file_name now in
  match write_code temp_file env fs with
  | (fs1, inl ex) => (fs1, inl ex)
  | (fs1, inr _) =>
      match subprocess_run env with
      | inl ex => (fs1, inl ex)
      | inr result =>
          let fs2 := clean_up temp_file fs1 in
          (fs2,
           inr [("status", PStr (if returncode result =? 0 then "success" else "error"));
                ("returncode", PInt (returncode result));
                ("stdout", PStr (stdout result));
                ("stderr", PStr (stderr result));
                ("files_created", PList [])])
      end
  end.

Definition execute_code_safely (fs : gset string) (now code : string) (timeout : Z)
    (env : process_outcome) : gset string * dict :=
  match execute_code_body fs now code env with
  | (fs', inr result) => (fs', result)
  | (fs', inl TimeoutExpired) =>
      (fs',
       [("status", PStr "timeout");
        ("returncode", PInt (-1));
        ("stdout", PStr "");
        ("stderr", PStr "Code execution exceeded 30-second timeout");
        ("files_created", PList [])])
  | (fs', inl (OtherException e)) =>
      (fs',
       [("status", PStr "error");
        ("returncode", PInt (-1));
        ("stdout", PStr "");
        ("stderr", PStr e);
        ("files_created", PList [])])
  end.




(** ** Evaluation parser ([parse_json_evaluation])

    [json.loads] belongs to the standard library, so the decoder is an
    argument of the parser. It returns the decoded value, raises
    [JSONDecodeError] on a text that is no document, or raises another
    exception: [RecursionError] on a document nested too deeply,
    [ValueError] on an integer of more than 4300 digits. The parser hands it
    a text that starts with an opening brace, for which a decoded value is
    an object. *)

Inductive loads_result :=
| Decoded (d : dict)
| JSONDecodeError (e : string)
| LoadsRaises (e : string).

Definition decoder : Type := string -> loads_result.

Definition fallback_evaluation : dict :=
  [("scores",
    PDict [("bugs", PInt 5); ("transformation", PInt 5); ("compliance", PInt 5);
           ("type", PInt 5); ("encoding", PInt 5); ("aesthetics", PInt 5)]);
   ("average_score", PFloat (FFinite (5 # 1)));
   ("feedback", PStr "Unable to parse evaluation");
   ("approve", PBool false)].

(** The [try] block: [Some r] when it reaches the call of [json.loads],
    [None] when it falls through ([match] is [None]). *)
Definition parse_json_body (json_loads : decoder) (text : string) : option loads_result :=
  match re_search_braces text with
  | Some json_str => Some (json_loads json_str)
  | None => None
  end.

Definition parse_json_evaluation (json_loads : decoder) (text : string) : outcome dict :=
  match parse_json_body json_loads text with
  | Some (Decoded d) => Returns d
  | Some (JSONDecodeError _) => Returns fallback_evaluation
  | Some (LoadsRaises e) => Raises e
  | None => Returns fallback_evaluation
  end.

(** ** Nodes of the graph

    A node reads the reply of its language-model call as an input:
    [Returns content] for [response.content], [Raises e] when [llm.invoke]
    raised. The prompts are not modelled, no node reads them back. *)

Definition coder_node (reply : outcome string) (state : VisualizationState)
  : VisualizationState :=
  match reply with
  | Returns raw_code =>
      let state := set_generated_code (extract_code_block raw_code) state in
      let state := set_iteration (iteration state + 1) state in
      set_status "in_progress" state
  | Raises e =>
      let state := set_error_message (PStr ("Coder Agent Error: " +:+ e)) state in
      set_status "failed" state
  end.

(** [execute_code_safely] has a handler for every exception, so the handler
    of [executor_node] itself is never entered. *)
Definition executor_node (fs : gset string) (now : string) (env : process_outcome)
    (state : VisualizationState) : gset string * VisualizationState :=
  let '(fs', result) := execute_code_safely fs now (generated_code state) 30 env in
  let state := set_execution_result result state in
  if negb (eq_str (dict_get "status" result) "success")
  then (fs', set_error_message
               (dict_get_default "stderr" (PStr "Unknown execution error") result) state)
  else (fs', state).

Definition degraded_evaluation (e : string) : dict :=
  [("scores",
    PDict [("bugs", PInt 3); ("transformation", PInt 3); ("compliance", PInt 3);
           ("type", PInt 3); ("encoding", PInt 3); ("aesthetics", PInt 3)]);
   ("average_score", PFloat (FFinite (3 # 1)));
   ("feedback", PStr ("Critic evaluation failed: " +:+ e));
   ("approve", PBool false)].

Definition critic_node (json_loads : decoder) (reply : outcome string)
    (state : VisualizationState) : VisualizationState :=
  match (do content <- reply; parse_json_evaluation json_loads content) with
  | Returns evaluation => set_critic_evaluation evaluation state
  | Raises e =>
      let state := set_critic_evaluation (degraded_evaluation e) state in
      set_error_message (PStr ("Critic Error: " +:+ e)) state
  end.

(** ** Convergence policy ([should_continue])

    The function mutates the state it is given and returns the name of the
    next node; here it returns both. *)

Inductive route := RouteCoder | RouteEnd.

Definition should_continue (state : VisualizationState)
  : outcome (route * VisualizationState) :=
  if max_iterations state <=? iteration state
  then Returns (RouteEnd, set_status "completed" state)
  else
    let avg_score := dict_get_default "average_score" (PInt 0) (critic_evaluation state) in
    let exec_success := eq_str (dict_get "status" (execution_result state)) "success" in
    do high <- ge_8 avg_score;
    if high && exec_success
    then
      let state := set_status "completed" state in
      Returns (RouteEnd, set_final_viz_path "visualization.png" state)
    else Returns (RouteCoder, state).

(** ** The graph ([build_workflow])

    Entry point [coder]; edges [coder -> executor], [executor -> critic];
    behind [critic] the conditional edge [should_continue] leads to [coder]
    or to the end. A node returns the state, and the graph hands what it
    returned to the next node. [should_continue] is an edge, not a node: it
    returns the name of the next node only, and the graph library drops
    what it wrote into the state it was shown. [Aborted] is the run in which
    an exception left a node or the edge. *)

Inductive node :=
| Coder
| Executor
| Critic
| Decide
| EndNode
| Aborted (e : string).

Record config := {
  pc : node;
  st : VisualizationState;
  files : gset string
}.

(** What the world outside the program answers during one step: the reply
    of the language model, the clock, the fate of the child process. A node
    reads the parts it asks for. *)
Record world := {
  llm_reply : outcome string;
  clock : string;
  process : process_outcome
}.

Definition step (json_loads : decoder) (w : world) (c : config) : config :=
  match pc c with
  | Coder =>
      {| pc := Executor; st := coder_node (llm_reply w) (st c); files := files c |}
  | Executor =>
      let '(fs', state) := executor_node (files c) (clock w) (process w) (st c) in
      {| pc := Critic; st := state; files := fs' |}
  | Critic =>
      {| pc := Decide; st := critic_node json_loads (llm_reply w) (st c); files := files c |}
  | Decide =>
      match should_continue (st c) with
      | Returns (RouteCoder, _) => {| pc := Coder; st := st c; files := files c |}
      | Returns (RouteEnd, _) => {| pc := EndNode; st := st c; files := files c |}
      | Raises e => {| pc := Aborted e; st := st c; files := files c |}
      end
  | EndNode => c
  | Aborted _ => c
  end.

Definition run (json_loads : decoder) (ws : list world) (c : config) : config :=
  fold_left (fun c w => step json_loads w c) ws c.

(** ** [run_visualization_workflow] *)

Definition initial_state (request url : string) (max : Z) : VisualizationState :=
  {| user_request := request; dataset_url := url;
     iteration := 0; max_iterations := max;
     generated_code := ""; execution_result := []; critic_evaluation := [];
     final_viz_path := ""; status := "in_progress"; error_message := PStr "" |}.

Definition initial_config (fs : gset string) (request url : string) (max : Z) : config :=
  {| pc := Coder; st := initial_state request url max; files := fs |}.

(** [app.invoke(initial_state)] is called without a configuration, so the
    graph library stops a run that has not ended after its default
    [recursion_limit] of 25 node steps and raises [GraphRecursionError]. A
    run ends behind a critic, that is after a multiple of three node steps:
    the runs the limit lets through are those that end within eight rounds,
    and the ninth generation step is the last one made. A round takes four
    steps of [step], the edge being one of them. *)
Definition round_limit : nat := 8.

(** How [str(e)] of the [GraphRecursionError] starts; the advice the
    library appends differs between its versions. *)
Definition graph_recursion_error : string :=
  "Recursion limit of 25 reached without hitting a stop condition.".

(** [None]: the list of answers ended before the call did. *)
Definition run_visualization_workflow (json_loads : decoder) (ws : list world)
    (fs : gset string) (request url : string) (max : Z)
  : option (outcome VisualizationState) :=
  let c := run json_loads (take (4 * round_limit) ws) (initial_config fs request url max) in
  match pc c with
  | EndNode => Some (Returns (st c))
  | Aborted e => Some (Raises e)
  | _ =>
      if decide (4 * round_limit < length ws)%nat
      then Some (Raises graph_recursion_error)
      else None
  end.

(** ** Job supervisor ([api.py]) *)

Module Job.

Record t := {
  status : string;
  user_request : string;
  dataset_url : string;
  max_iterations : Z;
  created_at : string;
  result : option VisualizationState;
  error : option string
}.

Definition set_status (x : string) (j : t) : t :=
  {| status := x; user_request := user_request j; dataset_url := dataset_url j;
     max_iterations := max_iterations j; created_at := created_at j;
     result := result j; error := error j |}.

Definition set_result (r : VisualizationState) (j : t) : t :=
  {| status := status j; user_request := user_request j; dataset_url := dataset_url j;
     max_iterations := max_iterations j; created_at := created_at j;
     result := Some r; error := error j |}.

Definition set_error (e : string) (j : t) : t :=
  {| status := status j; user_request := user_request j; dataset_url := dataset_url j;
     max_iterations := max_iterations j; created_at := created_at j;
     result := result j; error := Some e |}.

End Job.

Abbreviation jobs_store := (gmap string Job.t).

(** What an endpoint answers: the returned body, or the [HTTPException] it
    raised. *)
Inductive response :=
| Message (m : string)
| HTTPException (status_code : Z) (detail : string).

Definition cancel_job (job_id : string) (store : jobs_store) : response * jobs_store :=
  match store !! job_id with
  | None => (HTTPException 404 "Job not found", store)
  | Some job =>
      if bool_decide (Job.status job ∈ ["completed"; "failed"])
      then (HTTPException 400 "Cannot cancel completed job", store)
      else (Message ("Job " +:+ job_id +:+ " cancelled"),
            <[job_id := Job.set_status "cancelled" job]> store)
  end.

(** [jobs_store[job_id][field] = value]: a [KeyError] when the job is not
    in the store. *)
Definition update_job (job_id : string) (f : Job.t -> Job.t) (store : jobs_store)
  : outcome jobs_store :=
  match store !! job_id with
  | Some job => Returns (<[job_id := f job]> store)
  | None => Raises ("'" +:+ job_id +:+ "'")
  end.

(** The handler of [run_job]: [except Exception as e]. *)
Definition run_job_handler (job_id e : string) (store : jobs_store) : outcome jobs_store :=
  do store <- update_job job_id (Job.set_error e) store;
  update_job job_id (Job.set_status "failed") store.

(** [run_job]; [workflow] is what the call of [run_visualization_workflow]
    did. The handler sees the store as the [try] block left it. [Raises]: an
    exception left the handler too. *)
Definition run_job (job_id : string) (workflow : outcome VisualizationState)
    (store : jobs_store) : outcome jobs_store :=
  match update_job job_id (Job.set_status "processing") store with
  | Raises e => run_job_handler job_id e store
  | Returns store1 =>
      match workflow with
      | Raises e => run_job_handler job_id e store1
      | Returns result =>
          match update_job job_id (Job.set_result result) store1 with
          | Raises e => run_job_handler job_id e store1
          | Returns store2 =>
              match update_job job_id (Job.set_status "completed") store2 with
              | Raises e => run_job_handler job_id e store2
              | Returns store3 => Returns store3
              end
          end
      end
  end.

(** A sequence of cancel requests, one job id each. *)
Definition cancel_requests (ids : list string) (store : jobs_store) : jobs_store :=
  fold_left (fun store job_id => (cancel_job job_id store).2) ids store.

(** * Vocabulary of the statements *)

(** [first_split p s pre post]: [pre] and [post] are the parts of [s] around
    the leftmost occurrence of [p]. *)
Definition first_split (p s pre post : string) : Prop :=
  s = pre +:+ p +:+ post /\
  forall pre' post', s = pre' +:+ p +:+ post' ->
    (String.length pre <= String.length pre')%nat.

(** The text holds the delimiter [opening] and, somewhere behind it, the
    closing delimiter. *)
Definition has_block (opening text : string) : Prop :=
  exists pre content post,
    text = pre +:+ opening +:+ content +:+ fence_close +:+ post.

(** [content] lies between the first [opening] of the text and the nearest
    closing delimiter behind it. *)
Definition first_block (opening text content : string) : Prop :=
  exists pre rest post,
    first_split opening text pre rest /\ first_split fence_close rest content post.

(** A fenced block as Markdown has it: a fence, a tag (possibly empty) up to
    the end of the line, the content on lines of its own, a closing fence. *)
Definition fenced_block (text tag content : string) : Prop :=
  exists pre post,
    text = pre +:+ "```" +:+ tag +:+ nl +:+ content +:+ nl +:+ "```" +:+ post.

(** A span of the text that opens with a brace and closes with one. *)
Definition brace_span (text span : string) : Prop :=
  exists pre inner post,
    span = "{" +:+ inner +:+ "}" /\ text = pre +:+ span +:+ post.

(** The score the policy reads: [average_score] of the evaluation, 0 when
    the evaluation has none. *)
Definition average_score (state : VisualizationState) : pyval :=
  dict_get_default "average_score" (PInt 0) (critic_evaluation state).

Definition is_number (v : pyval) : Prop :=
  match v with
  | PBool _ | PInt _ | PFloat _ => True
  | _ => False
  end.

Definition at_least_8 (v : pyval) : Prop :=
  match v with
  | PInt z => 8 <= z
  | PFloat (FFinite q) => (8 # 1 <= q)%Q
  | PFloat (FInf true) => True
  | _ => False
  end.

Definition last_execution_succeeded (state : VisualizationState) : Prop :=
  dict_get "status" (execution_result state) = Some (PStr "success").

(** The stopping condition as the specification words it. *)
Definition converged (state : VisualizationState) : Prop :=
  max_iterations state <= iteration state \/
  (at_least_8 (average_score state) /\ last_execution_succeeded state).

Definition emits_end_completed (state : VisualizationState) : Prop :=
  exists state',
    should_continue state = Returns (RouteEnd, state') /\ status state' = "completed".




(** The invariant of the graph: the count is within the budget, and
    strictly below it whenever the coder is next. *)
Definition within_budget (c : config) : Prop :=
  iteration (st c) <= max_iterations (st c) /\
  (pc c = Coder -> iteration (st c) < max_iterations (st c)).

(** ** Sample inputs *)

(** A decoder that knows finitely many documents. The examples hand it these
    documents or texts that are not JSON. *)
Definition table_decoder (table : list (string * dict)) : decoder :=
  fun text =>
    match list_find (fun entry => String.eqb entry.1 text) table with
    | Some (_, (_, d)) => Decoded d
    | None => JSONDecodeError "Expecting value"
    end.

(** [{"average_score": 9.0}] and [{"average_score": "9"}]. *)
Definition doc_score_9 : string :=
  "{" +:+ dq +:+ "average_score" +:+ dq +:+ ": 9.0}".

Definition doc_score_text : string :=
  "{" +:+ dq +:+ "average_score" +:+ dq +:+ ": " +:+ dq +:+ "9" +:+ dq +:+ "}".

Definition sample_decoder : decoder :=
  table_decoder
    [(doc_score_9, [("average_score", PFloat (FFinite (9 # 1)))]);
     (doc_score_text, [("average_score", PStr "9")])].




(** A text whose only fenced block carries the tag [js]. *)
Definition js_block_text : string := "```js" +:+ nl +:+ "A" +:+ nl +:+ "```".

Definition sample_job (job_status : string) : Job.t :=
  {| Job.status := job_status;
     Job.user_request := "Create a bar chart showing sales by region";
     Job.dataset_url := "https://example.com/sales.csv";
     Job.max_iterations := 2;
     Job.created_at := "2025-01-01T00:00:00";
     Job.result := None;
     Job.error := None |}.

Definition model_down : world :=
  {| llm_reply := Raises "Connection error.";
     clock := "1730000000.25";
     process := RunCompletes 0 "" "" |}.

Definition model_replies (content : string) : world :=
  {| llm_reply := Returns content;
     clock := "1730000000.25";
     process := RunCompletes 0 "" "" |}.

(** ** More of [api.py]

    The endpoints that read the store, the part of [create_visualization]
    that writes it, and the operations on the store in sequence. *)

(** What an endpoint with a body answers. *)
Inductive api_answer (A : Type) :=
| Body (content : A)
| Error (status_code : Z) (detail : string).

Arguments Body {A} content.
Arguments Error {A} status_code detail.

(** [create_visualization] behind its validation: the record stored under a
    new [job_id]. [url] is the stripped [dataset_url], [now] the rendered
    [datetime.now().isoformat()]. *)
Definition store_new_job (job_id request url : string) (max : Z) (now : string)
    (store : jobs_store) : jobs_store :=
  <[job_id := {| Job.status := "queued";
                 Job.user_request := request;
                 Job.dataset_url := url;
                 Job.max_iterations := max;
                 Job.created_at := now;
                 Job.result := None;
                 Job.error := None |}]> store.

(** [json.dumps(v, allow_nan=False)] accepts [v]: no float in it is a NaN
    or an infinity. *)
Fixpoint json_compliant (v : pyval) : bool :=
  match v with
  | PFloat (FFinite _) => true
  | PFloat _ => false
  | PList items =>
      (fix all (l : list pyval) : bool :=
         match l with
         | [] => true
         | x :: l' => json_compliant x && all l'
         end) items
  | PDict items =>
      (fix all (l : list (string * pyval)) : bool :=
         match l with
         | [] => true
         | (_, x) :: l' => json_compliant x && all l'
         end) items
  | _ => true
  end.

Definition state_json_compliant (s : VisualizationState) : bool :=
  json_compliant (PDict (execution_result s)) &&
  json_compliant (PDict (critic_evaluation s)) &&
  json_compliant (error_message s).

(** [get_job_result]: the body is [job.get("result", {})], the stored
    value of the key, [None] included. [JSONResponse] renders it with
    [allow_nan=False], which raises [ValueError] on a NaN or an infinity. *)
Definition get_job_result (job_id : string) (store : jobs_store)
  : outcome (api_answer (option VisualizationState)) :=
  match store !! job_id with
  | None => Returns (Error 404 "Job not found")
  | Some job =>
      if negb (String.eqb (Job.status job) "completed")
      then Returns (Error 400 "Job not completed")
      else
        match Job.result job with
        | None => Returns (Body None)
        | Some result =>
            if state_json_compliant result
            then Returns (Body (Some result))
            else Raises "Out of range float values are not JSON compliant"
        end
  end.

Record FileResponse := {
  path : string;
  filename : string;
  media_type : string
}.

(** [download_visualization]; [fs] is the set of paths that exist. A stored
    result of [None] makes [result.get] raise. *)
Definition download_visualization (job_id : string) (store : jobs_store) (fs : gset string)
  : outcome (api_answer FileResponse) :=
  match store !! job_id with
  | None => Returns (Error 404 "Job not found")
  | Some job =>
      if negb (String.eqb (Job.status job) "completed")
      then Returns (Error 400 "Job not completed")
      else
        match Job.result job with
        | None => Raises "'NoneType' object has no attribute 'get'"
        | Some result =>
            let viz_path := final_viz_path result in
            if String.eqb viz_path "" || negb (bool_decide (viz_path ∈ fs))
            then Returns (Error 404 "Visualization file not found")
            else Returns (Body {| path := viz_path;
                                  filename := "visualization_" +:+ job_id +:+ ".png";
                                  media_type := "image/png" |})
        end
  end.

(** [l[start:]]: a negative [start] counts from the end, and both ends are
    clamped to the list. *)
Definition slice_from {A : Type} (start : Z) (l : list A) : list A :=
  let n := Z.of_nat (length l) in
  let start := if start <? 0 then Z.max 0 (start + n) else Z.min start n in
  drop (Z.to_nat start) l.

Record job_summary := {
  summary_job_id : string;
  summary_status : string;
  summary_created_at : string
}.

Definition summarize (item : string * Job.t) : job_summary :=
  {| summary_job_id := item.1;
     summary_status := Job.status item.2;
     summary_created_at := Job.created_at item.2 |}.

(** [list_jobs]; [items] is [list(jobs_store.items())], the jobs in the
    order they were stored. The answer is the pair of ["total"] and
    ["jobs"]. *)
Definition list_jobs (items : list (string * Job.t)) (limit : Z) : Z * list job_summary :=
  (Z.of_nat (length items), map summarize (slice_from (- limit) items)).

(** The writes to the store, one request or background task each. A
    background task whose exception left its handler has changed nothing. *)
Inductive store_op :=
| OpCreate (job_id request url : string) (max : Z) (now : string)
| OpCancel (job_id : string)
| OpRunJob (job_id : string) (workflow : outcome VisualizationState).

Definition apply_op (store : jobs_store) (op : store_op) : jobs_store :=
  match op with
  | OpCreate job_id request url max now => store_new_job job_id request url max now store
  | OpCancel job_id => (cancel_job job_id store).2
  | OpRunJob job_id workflow =>
      match run_job job_id workflow store with
      | Returns store' => store'
      | Raises _ => store
      end
  end.

Definition apply_ops (ops : list store_op) (store : jobs_store) : jobs_store :=
  fold_left apply_op ops store.

(** ** More vocabulary *)

Fixpoint contains_char (c : ascii) (s : string) : bool :=
  match s with
  | EmptyString => false
  | String x s' => Ascii.eqb x c || contains_char c s'
  end.

(** The run is over: the graph reached its end, or an exception left it. *)
Definition finished (c : config) : Prop :=
  match pc c with
  | EndNode | Aborted _ => True
  | _ => False
  end.

(** The policy emits [end] on the state. *)
Definition emits_end (s : VisualizationState) : Prop :=
  exists s', should_continue s = Returns (RouteEnd, s').

(** What holds of a configuration that a run from the start has reached
    after [n] steps: no node has written the artifact path or the status
    [completed], a run that ended did so on a state the policy ends on, and
    every generation took four steps. *)
Definition end_state_invariant (n : Z) (c : config) : Prop :=
  final_viz_path (st c) = "" /\
  (status (st c) = "in_progress" \/ status (st c) = "failed") /\
  (pc c = EndNode -> emits_end (st c)) /\
  4 * iteration (st c) <=
    n + match pc c with Executor => 3 | Critic => 2 | Decide => 1 | _ => 0 end.

Definition replies (w : world) : Prop := exists content, llm_reply w = Returns content.

Definition model_fails (w : world) : Prop := exists e, llm_reply w = Raises e.

(** * Strings and searches *)

Module Str.

Lemma app_cons (c : ascii) (s t : string) :
  String c s +:+ t = String c (s +:+ t).
Proof. reflexivity. Qed.

Lemma app_nil_r (s : string) : s +:+ "" = s.
Proof.
  induction s as [|c s IH]; [reflexivity | now rewrite app_cons, IH].
Qed.

Lemma app_assoc (a b c : string) : (a +:+ b) +:+ c = a +:+ b +:+ c.
Proof.
  induction a as [|x a IH]; [reflexivity | now rewrite !app_cons, IH].
Qed.

Lemma app_length (a b : string) :
  String.length (a +:+ b) = (String.length a + String.length b)%nat.
Proof.
  induction a as [|x a IH]; [reflexivity |].
  rewrite app_cons. simpl. now rewrite IH.
Qed.

(** Two splittings of one string: the shorter left part is a prefix of the
    longer one. *)
Lemma app_split (a : string) : forall b x y : string,
  a +:+ x = b +:+ y -> (String.length a <= String.length b)%nat ->
  exists d, b = a +:+ d /\ x = d +:+ y.
Proof.
  induction a as [|c a IH]; intros b x y E L.
  - exists b. split; [reflexivity | exact E].
  - destruct b as [|c' b]; [simpl in L; lia |].
    rewrite !app_cons in E. injection E as -> E.
    destruct (IH b x y E ltac:(simpl in L; lia)) as (d & -> & ->).
    exists d. split; reflexivity.
Qed.

Lemma app_inj_length (a b x y : string) :
  a +:+ x = b +:+ y -> String.length a = String.length b -> a = b /\ x = y.
Proof.
  intros E L. destruct (app_split a b x y E ltac:(lia)) as (d & -> & ->).
  rewrite app_length in L. destruct d; simpl in L; [| lia].
  now rewrite app_nil_r.
Qed.

End Str.

Lemma strip_prefix_Some (p : string) : forall s r,
  strip_prefix p s = Some r <-> s = p +:+ r.
Proof.
  induction p as [|a p IH]; intros s r; simpl.
  - split; [now intros [= ->] | now intros ->].
  - destruct s as [|b s].
    + split; [discriminate | rewrite Str.app_cons; discriminate].
    + rewrite Str.app_cons. destruct (Ascii.eqb_spec a b) as [-> | Hne].
      * rewrite IH. split; [now intros -> | now intros [= ->]].
      * split; [discriminate | intros [= E _]; congruence].
Qed.

Lemma find_first_unfold (p s : string) :
  find_first p s =
  match strip_prefix p s with
  | Some rest => Some (EmptyString, rest)
  | None =>
      match s with
      | EmptyString => None
      | String c s' =>
          match find_first p s' with
          | Some (before, after) => Some (String c before, after)
          | None => None
          end
      end
  end.
Proof. destruct s; reflexivity. Qed.

Lemma find_first_Some (p s : string) : forall a b,
  find_first p s = Some (a, b) -> first_split p s a b.
Proof.
  induction s as [|c s IH]; intros a b; rewrite find_first_unfold;
    destruct (strip_prefix p _) as [rest|] eqn:Hp.
  - intros [= <- <-]. apply strip_prefix_Some in Hp.
    split; [exact Hp | intros; simpl; lia].
  - discriminate.
  - intros [= <- <-]. apply strip_prefix_Some in Hp.
    split; [exact Hp | intros; simpl; lia].
  - destruct (find_first p s) as [[a' b']|] eqn:Hf; [| discriminate].
    intros [= <- <-]. destruct (IH a' b' eq_refl) as [E Hmin].
    split; [rewrite Str.app_cons; now f_equal |].
    intros [|c' pre'] post' E'.
    + apply (proj2 (strip_prefix_Some p _ post')) in E'. congruence.
    + rewrite Str.app_cons in E'. injection E' as _ E'.
      specialize (Hmin _ _ E'). simpl. lia.
Qed.

Lemma find_first_None (p s : string) :
  find_first p s = None -> forall pre post, s <> pre +:+ p +:+ post.
Proof.
  induction s as [|c s IH]; rewrite find_first_unfold;
    destruct (strip_prefix p _) as [rest|] eqn:Hp; try discriminate.
  - intros _ [|c' pre] post E; [| rewrite Str.app_cons in E; discriminate].
    apply (proj2 (strip_prefix_Some p _ post)) in E. congruence.
  - destruct (find_first p s) as [[a' b']|] eqn:Hf; [discriminate |].
    intros _ [|c' pre] post E.
    + apply (proj2 (strip_prefix_Some p _ post)) in E. congruence.
    + rewrite Str.app_cons in E. injection E as _ E. now apply (IH eq_refl pre post).
Qed.

Lemma first_split_unique (p s a b a' b' : string) :
  first_split p s a b -> first_split p s a' b' -> a = a' /\ b = b'.
Proof.
  intros [E Hmin] [E' Hmin'].
  assert (L : String.length a = String.length a').
  { specialize (Hmin _ _ E'). specialize (Hmin' _ _ E). lia. }
  rewrite E in E'. destruct (Str.app_inj_length _ _ _ _ E' L) as [-> E2].
  split; [reflexivity |].
  now destruct (Str.app_inj_length _ _ _ _ E2 eq_refl).
Qed.

Lemma find_last_char_Some (c : ascii) (s : string) : forall a b,
  find_last_char c s = Some (a, b) -> s = a +:+ String c b.
Proof.
  induction s as [|x s IH]; intros a b; simpl; [discriminate |].
  destruct (find_last_char c s) as [[a' b']|].
  - intros [= <- <-]. rewrite Str.app_cons. f_equal. now apply IH.
  - destruct (Ascii.eqb_spec x c) as [-> |]; [| discriminate].
    now intros [= <- <-].
Qed.

Lemma re_findall_lazy_first_Some (opening text group : string) :
  re_findall_lazy_first opening fence_close text = Some group ->
  first_block opening text group.
Proof.
  unfold re_findall_lazy_first.
  destruct (find_first opening text) as [[pre rest]|] eqn:Ho; [| discriminate].
  destruct (find_first fence_close rest) as [[content post]|] eqn:Hc; [| discriminate].
  intros [= <-]. exists pre, rest, post.
  split; now apply find_first_Some.
Qed.

Lemma re_findall_lazy_first_None (opening text : string) :
  re_findall_lazy_first opening fence_close text = None ->
  ~ has_block opening text.
Proof.
  unfold re_findall_lazy_first. intros H (pre & content & post & E).
  destruct (find_first opening text) as [[a rest]|] eqn:Ho.
  - destruct (find_first fence_close rest) as [[? ?]|] eqn:Hc; [discriminate |].
    destruct (find_first_Some _ _ _ _ Ho) as [Ea Hmin].
    specialize (Hmin _ _ E).
    rewrite Ea in E.
    destruct (Str.app_split _ _ _ _ E Hmin) as (d & -> & E1).
    rewrite <- Str.app_assoc in E1.
    destruct (Str.app_split opening (d +:+ opening) _ _ E1) as (d' & _ & E2).
    { rewrite Str.app_length. lia. }
    apply (find_first_None _ _ Hc (d' +:+ content) post).
    now rewrite Str.app_assoc.
  - now apply (find_first_None _ _ Ho pre (content +:+ fence_close +:+ post)).
Qed.

Lemma first_block_functional (opening text x y : string) :
  first_block opening text x -> first_block opening text y -> x = y.
Proof.
  intros (p1 & r1 & q1 & Ho1 & Hc1) (p2 & r2 & q2 & Ho2 & Hc2).
  destruct (first_split_unique _ _ _ _ _ _ Ho1 Ho2) as [_ <-].
  now destruct (first_split_unique _ _ _ _ _ _ Hc1 Hc2).
Qed.

Lemma first_block_found (opening text x : string) :
  first_block opening text x ->
  re_findall_lazy_first opening fence_close text = Some x.
Proof.
  intros Hx.
  destruct (re_findall_lazy_first opening fence_close text) as [y|] eqn:H.
  - f_equal. apply re_findall_lazy_first_Some in H.
    exact (first_block_functional _ _ _ _ H Hx).
  - exfalso. apply (re_findall_lazy_first_None _ _ H).
    destruct Hx as (pre & rest & post & [E _] & [E' _]).
    exists pre, x, post. now rewrite E, E'.
Qed.

(** * Code extractor *)

(** C8, as stated, fails: a text whose only fenced block is tagged [js]
    holds a fenced block with content [A] and none tagged [python], yet the
    extractor returns the whole text, fences included, and not [A]. *)
Lemma extract_code_block_other_tag :
  fenced_block js_block_text "js" "A" /\
  ~ has_block fence_python js_block_text /\
  extract_code_block js_block_text = js_block_text /\
  (forall tag content,
     fenced_block js_block_text tag content ->
     extract_code_block js_block_text <> content).
Proof.
  split; [| split; [| split]].
  - exists "", "". reflexivity.
  - apply re_findall_lazy_first_None. reflexivity.
  - reflexivity.
  - intros tag content (pre & post & E) H.
    change (extract_code_block js_block_text) with js_block_text in H.
    apply (f_equal String.length) in E.
    rewrite H, !Str.app_length in E. simpl in E. lia.
Qed.

(** C8, amended: the extractor looks for the literal delimiters. If the
    text holds [```python] directly followed by a newline and a closing
    newline-and-fence behind it, the result is the text strictly between the
    first such opening and the nearest closing, unchanged and untrimmed;
    otherwise the same with the bare fence directly followed by a newline;
    otherwise the text itself. *)
Theorem extract_code_block_policy (text : string) :
  ((exists x, first_block fence_python text x /\ extract_code_block text = x) \/
   (~ has_block fence_python text /\
    exists x, first_block fence_bare text x /\ extract_code_block text = x) \/
   (~ has_block fence_python text /\ ~ has_block fence_bare text /\
    extract_code_block text = text)) /\
  (forall pre x post,
     first_split fence_python text pre (x +:+ fence_close +:+ post) ->
     first_split fence_close (x +:+ fence_close +:+ post) x post ->
     extract_code_block text = x).
Proof.
  split.
  - unfold extract_code_block.
    destruct (re_findall_lazy_first fence_python fence_close text) as [x|] eqn:Hp.
    + left. exists x. split; [now apply re_findall_lazy_first_Some | reflexivity].
    + right. apply re_findall_lazy_first_None in Hp.
      destruct (re_findall_lazy_first fence_bare fence_close text) as [x|] eqn:Hb.
      * left. split; [exact Hp |]. exists x.
        split; [now apply re_findall_lazy_first_Some | reflexivity].
      * right. apply re_findall_lazy_first_None in Hb. now repeat split.
  - intros pre x post Ho Hc. unfold extract_code_block.
    rewrite (first_block_found fence_python text x); [reflexivity |].
    now exists pre, (x +:+ fence_close +:+ post), post.
Qed.

(** * Sandboxed executor *)

Lemma execute_code_safely_files (fs : gset string) (now code : string) (timeout : Z)
    (env : process_outcome) :
  (execute_code_safely fs now code timeout env).1 =
  match env with
  | OpenRaises _ => fs
  | WriteRaises _ | RunRaises _ | RunTimesOut => {[temp_file_name now]} ∪ fs
  | RunCompletes _ _ _ => clean_up (temp_file_name now) ({[temp_file_name now]} ∪ fs)
  end.
Proof. destruct env; reflexivity. Qed.

Lemma clean_up_removes (path : string) (fs : gset string) :
  path ∉ clean_up path fs.
Proof.
  unfold clean_up. destruct (decide (path ∈ fs)) as [Hin | Hout]; [| exact Hout].
  rewrite elem_of_difference, elem_of_singleton. tauto.
Qed.

(** C4: the scratch file is removed on one exit path only. It is gone
    after a child that ran to its end, whatever its exit code; it is still
    there after a timeout, after a failed launch and after a failed write;
    and when the file could not be opened the call leaves the file system as
    it was. *)
Theorem scratch_file_after_call (fs : gset string) (now code : string) (timeout : Z)
    (env : process_outcome) :
  temp_file_name now ∈ (execute_code_safely fs now code timeout env).1 <->
  match env with
  | RunCompletes _ _ _ => False
  | OpenRaises _ => temp_file_name now ∈ fs
  | WriteRaises _ | RunRaises _ | RunTimesOut => True
  end.
Proof.
  rewrite execute_code_safely_files. destruct env; try set_solver.
  split; [apply clean_up_removes | tauto].
Qed.

(** A fragment that sleeps past the timeout, on an empty scratch directory:
    the call answers [timeout] and the scratch file stays. *)
Example scratch_file_leaked_by_timeout :
  let sleeper := "import time" +:+ nl +:+ "time.sleep(60)" in
  let '(fs, r) := execute_code_safely ∅ "1730000000.25" sleeper 30 RunTimesOut in
  "/tmp/viz_code_1730000000.25.py" ∈ fs /\
  dict_get "status" r = Some (PStr "timeout").
Proof.
  cbv zeta. rewrite (surjective_pairing (execute_code_safely _ _ _ _ _)).
  rewrite execute_code_safely_files. split; [set_solver | reflexivity].
Qed.




(** * Evaluation parser *)

Lemma re_search_braces_span (text span : string) :
  re_search_braces text = Some span -> brace_span text span.
Proof.
  unfold re_search_braces.
  destruct (find_first "{" text) as [[pre rest]|] eqn:Ho; [| discriminate].
  destruct (find_last_char "}"%char rest) as [[inner post]|] eqn:Hc; [| discriminate].
  intros [= <-]. exists pre, inner, post. split; [reflexivity |].
  destruct (find_first_Some _ _ _ _ Ho) as [-> _].
  apply find_last_char_Some in Hc. subst rest.
  now rewrite !Str.app_assoc.
Qed.

Lemma no_brace_no_span (text span : string) :
  find_first "{" text = None -> ~ brace_span text span.
Proof.
  intros H (pre & inner & post & -> & E).
  apply (find_first_None _ _ H pre (inner +:+ "}" +:+ post)).
  now rewrite E, !Str.app_assoc.
Qed.




(** The test of the repository on a valid document, with the decoder that
    knows it. *)
Example parse_json_evaluation_valid :
  parse_json_evaluation sample_decoder ("Here you go: " +:+ doc_score_9)
  = Returns [("average_score", PFloat (FFinite (9 # 1)))].
Proof. reflexivity. Qed.

(** Only the span from the first opening brace to the last closing brace is
    tried: a document followed by a stray brace is lost. *)
Example parse_json_evaluation_greedy :
  parse_json_evaluation sample_decoder (doc_score_9 +:+ " }")
  = Returns fallback_evaluation.
Proof. reflexivity. Qed.

(** * Convergence policy *)

Lemma ge_8_number (v : pyval) :
  is_number v -> exists b, ge_8 v = Returns b /\ (b = true <-> at_least_8 v).
Proof.
  destruct v as [ |b|z|[q|[]| ]|s|l|d]; simpl; try contradiction; intros _.
  - exists false. split; [reflexivity | split; [discriminate | contradiction]].
  - exists (8 <=? z). split; [reflexivity | apply Z.leb_le].
  - exists (Qle_bool (8 # 1) q). split; [reflexivity | apply Qle_bool_iff].
  - exists true. split; [reflexivity | tauto].
  - exists false. split; [reflexivity | split; [discriminate | contradiction]].
  - exists false. split; [reflexivity | split; [discriminate | contradiction]].
Qed.

Lemma eq_str_true (v : option pyval) (s : string) :
  eq_str v s = true <-> v = Some (PStr s).
Proof.
  destruct v as [[ | | | |x| | ]|]; simpl; try (split; [discriminate | intros [=]]).
  rewrite String.eqb_eq. split; [now intros -> | now intros [= ->]].
Qed.

(** C1, as stated, fails: the parser hands on whatever document the model
    wrote, and an evaluation whose [average_score] is the string "9" makes
    the comparison with 8.0 raise while the budget is not used up. The
    policy then emits neither [end] nor [coder], and the run is left by the
    exception. *)
Lemma should_continue_raises_on_text_score :
  let c := run sample_decoder
             [model_replies "print(1)"; model_replies ""; model_replies doc_score_text]
             (initial_config ∅ "Create a bar chart" "https://example.com/data.csv" 5) in
  pc c = Decide /\
  critic_evaluation (st c) = [("average_score", PStr "9")] /\
  last_execution_succeeded (st c) /\
  iteration (st c) < max_iterations (st c) /\
  (forall r, should_continue (st c) <> Returns r) /\
  pc (step sample_decoder (model_replies "") c) =
    Aborted "'>=' not supported between instances of 'str' and 'float'".
Proof. vm_compute. repeat split; intros; discriminate. Qed.

Lemma ge_8_raises (v : pyval) : ~ is_number v -> exists e, ge_8 v = Raises e.
Proof.
  destruct v as [ |b|z|f|s|l|d]; simpl; intros H; try (now destruct H); eauto.
Qed.

(** C1, amended: for a state whose average score is a number (or absent,
    read as 0), or whose budget is used up, the policy emits [end] with
    status [completed] exactly when the stopping condition holds, and
    [coder] with the state untouched otherwise; with the budget used up it
    emits [end] whatever the score is, a score that is no number included;
    below the budget a score that is no number makes the comparison raise,
    and the policy emits nothing. *)
Theorem should_continue_policy (state : VisualizationState) :
  (is_number (average_score state) \/ max_iterations state <= iteration state ->
   (emits_end_completed state <-> converged state) /\
   (~ converged state -> should_continue state = Returns (RouteCoder, state))) /\
  (max_iterations state <= iteration state ->
   should_continue state = Returns (RouteEnd, set_status "completed" state)) /\
  (iteration state < max_iterations state -> ~ is_number (average_score state) ->
   (exists e, should_continue state = Raises e) /\
   forall r, should_continue state <> Returns r).
Proof.
  unfold emits_end_completed, converged, should_continue.
  destruct (Z.leb_spec (max_iterations state) (iteration state)) as [Hle | Hlt].
  - split; [intros _; split | split; [reflexivity | lia]].
    + split; [now left | intros _; eexists; split; reflexivity].
    + intros H. destruct H. now left.
  - fold (average_score state). split; [| split; [lia |]].
    + intros [Hnum | Hle]; [| lia].
      destruct (ge_8_number _ Hnum) as (high & Hge & Hhigh).
      rewrite Hge. cbn [bind].
      destruct high; cbn [andb].
      * destruct (eq_str _ "success") eqn:Hex.
        -- apply eq_str_true in Hex. split.
           ++ split; [intros _; right; split; [now apply Hhigh | exact Hex] |].
              intros _. eexists; split; reflexivity.
           ++ intros H. destruct H. right. split; [now apply Hhigh | exact Hex].
        -- assert (Hno : ~ last_execution_succeeded state).
           { intros H. apply eq_str_true in H. congruence. }
           split; [| reflexivity].
           split; [intros (? & [=] & _) | intros [? | [_ ?]]; [lia | contradiction]].
      * assert (Hno : ~ at_least_8 (average_score state)).
        { intros H. apply Hhigh in H. discriminate. }
        split; [| reflexivity].
        split; [intros (? & [=] & _) | intros [? | [? _]]; [lia | contradiction]].
    + intros _ Hnum. destruct (ge_8_raises _ Hnum) as [e ->]. cbn [bind].
      split; [now exists e | discriminate].
Qed.

(** The test of the repository: score 9.0 on a successful run at iteration
    2 of 5. *)
Lemma should_continue_policy_witness :
  let state :=
    set_iteration 2
      (set_execution_result [("status", PStr "success")]
         (set_critic_evaluation [("average_score", PFloat (FFinite (9 # 1)))]
            (initial_state "test" "https://example.com/data.csv" 5))) in
  emits_end_completed state <-> converged state.
Proof.
  cbv zeta. apply should_continue_policy. left. exact I.
Defined.

(** * The graph *)

Lemma coder_node_fields (reply : outcome string) (state : VisualizationState) :
  max_iterations (coder_node reply state) = max_iterations state /\
  match reply with
  | Returns _ =>
      iteration (coder_node reply state) = iteration state + 1 /\
      status (coder_node reply state) = "in_progress"
  | Raises e =>
      iteration (coder_node reply state) = iteration state /\
      status (coder_node reply state) = "failed" /\
      error_message (coder_node reply state) = PStr ("Coder Agent Error: " +:+ e)
  end.
Proof. destruct reply; repeat split. Qed.

Lemma executor_node_fields (fs : gset string) (now : string) (env : process_outcome)
    (state : VisualizationState) :
  iteration (executor_node fs now env state).2 = iteration state /\
  max_iterations (executor_node fs now env state).2 = max_iterations state /\
  status (executor_node fs now env state).2 = status state.
Proof.
  unfold executor_node.
  destruct (execute_code_safely _ _ _ _ _) as [fs' result].
  destruct (negb _); repeat split.
Qed.

Lemma critic_node_fields (json_loads : decoder) (reply : outcome string)
    (state : VisualizationState) :
  iteration (critic_node json_loads reply state) = iteration state /\
  max_iterations (critic_node json_loads reply state) = max_iterations state /\
  status (critic_node json_loads reply state) = status state.
Proof.
  unfold critic_node.
  destruct (bind reply _); repeat split.
Qed.

Lemma should_continue_fields (state state' : VisualizationState) (r : route) :
  should_continue state = Returns (r, state') ->
  iteration state' = iteration state /\
  max_iterations state' = max_iterations state /\
  match r with
  | RouteCoder => iteration state < max_iterations state /\ state' = state
  | RouteEnd => status state' = "completed"
  end.
Proof.
  unfold should_continue.
  destruct (Z.leb_spec (max_iterations state) (iteration state)) as [Hle | Hlt].
  - intros [= <- <-]. repeat split.
  - destruct (ge_8 _) as [high|e]; cbn [bind]; [| discriminate].
    destruct (high && _); intros [= <- <-]; repeat split. exact Hlt.
Qed.

Lemma step_executor (json_loads : decoder) (w : world) (c : config) :
  pc c = Executor ->
  pc (step json_loads w c) = Critic /\
  st (step json_loads w c) = (executor_node (files c) (clock w) (process w) (st c)).2.
Proof.
  intros H. unfold step. rewrite H.
  destruct (executor_node _ _ _ _); split; reflexivity.
Qed.

Lemma step_within_budget (json_loads : decoder) (w : world) (c : config) :
  within_budget c ->
  within_budget (step json_loads w c) /\
  max_iterations (st (step json_loads w c)) = max_iterations (st c).
Proof.
  intros [Hle Hlt]. unfold within_budget.
  destruct (pc c) eqn:Hpc.
  - unfold step. rewrite Hpc. cbn [pc st].
    destruct (coder_node_fields (llm_reply w) (st c)) as [Hmax Hit].
    specialize (Hlt eq_refl). rewrite Hmax.
    destruct (llm_reply w); destruct Hit as [-> _];
      (split; [split; [lia | discriminate] | reflexivity]).
  - destruct (step_executor json_loads w c Hpc) as [-> ->].
    destruct (executor_node_fields (files c) (clock w) (process w) (st c)) as (-> & -> & _).
    split; [split; [exact Hle | discriminate] | reflexivity].
  - unfold step. rewrite Hpc. cbn [pc st].
    destruct (critic_node_fields json_loads (llm_reply w) (st c)) as (-> & -> & _).
    split; [split; [exact Hle | discriminate] | reflexivity].
  - unfold step. rewrite Hpc.
    destruct (should_continue (st c)) as [[[] state']|e] eqn:Hd; cbn [pc st].
    + destruct (should_continue_fields _ _ _ Hd) as (_ & _ & Hlt' & _).
      split; [split; [exact Hle | intros _; exact Hlt'] | reflexivity].
    + split; [split; [exact Hle | discriminate] | reflexivity].
    + split; [split; [exact Hle | discriminate] | reflexivity].
  - unfold step. rewrite Hpc. split; [split; [exact Hle | now rewrite Hpc] | reflexivity].
  - unfold step. rewrite Hpc. split; [split; [exact Hle | now rewrite Hpc] | reflexivity].
Qed.

Lemma run_within_budget (json_loads : decoder) (ws : list world) : forall c,
  within_budget c ->
  within_budget (run json_loads ws c) /\
  max_iterations (st (run json_loads ws c)) = max_iterations (st c).
Proof.
  induction ws as [|w ws IH]; intros c Hc; [now split |].
  destruct (step_within_budget json_loads w c Hc) as [Hc' Hmax].
  destruct (IH _ Hc') as [Hr Hmax'].
  split; [exact Hr | cbn; unfold run in Hmax'; now rewrite Hmax'].
Qed.

(** C2: in a run that starts at the coder with iteration 0 and a positive
    budget, after every step of every node the iteration count is within
    the budget, and the budget is the one the run started with. The
    generation step adds one to the count when the model replied and
    leaves it when the model failed, and the policy never sends a state
    whose count has reached the budget back to the coder. *)
Theorem iteration_within_budget (json_loads : decoder) (ws : list world) (c : config) :
  pc c = Coder -> iteration (st c) = 0 -> 0 < max_iterations (st c) ->
  iteration (st (run json_loads ws c)) <= max_iterations (st (run json_loads ws c)) /\
  max_iterations (st (run json_loads ws c)) = max_iterations (st c) /\
  (forall reply state,
     iteration (coder_node reply state) =
     iteration state + match reply with Returns _ => 1 | Raises _ => 0 end) /\
  (forall state,
     max_iterations state <= iteration state ->
     should_continue state = Returns (RouteEnd, set_status "completed" state)).
Proof.
  intros Hpc H0 Hmax.
  destruct (run_within_budget json_loads ws c) as [[Hle _] Hsame].
  { split; [lia | intros _; lia]. }
  split; [exact Hle |]. split; [exact Hsame |]. split.
  - intros [content|e] state; cbn; lia.
  - intros state H. unfold should_continue.
    now destruct (Z.leb_spec (max_iterations state) (iteration state)); [| lia].
Qed.

(** A run of two full rounds on a budget of 2: the critic's replies are no
    JSON, so both rounds score the fallback 5.0 and the budget ends the
    run. *)
Lemma iteration_within_budget_witness :
  let ws := repeat (model_replies "print(1)") 8 in
  let c := initial_config ∅ "Create a bar chart" "https://example.com/data.csv" 2 in
  iteration (st (run sample_decoder ws c)) <= max_iterations (st (run sample_decoder ws c)).
Proof.
  cbv zeta.
  apply (iteration_within_budget sample_decoder
           (repeat (model_replies "print(1)") 8)
           (initial_config ∅ "Create a bar chart" "https://example.com/data.csv" 2));
    [reflexivity | reflexivity | reflexivity].
Defined.

Example two_rounds_end_at_the_budget :
  let c := run sample_decoder (repeat (model_replies "print(1)") 8)
             (initial_config ∅ "Create a bar chart" "https://example.com/data.csv" 2) in
  pc c = EndNode /\ iteration (st c) = 2 /\ status (st c) = "in_progress" /\
  final_viz_path (st c) = "".
Proof. vm_compute. repeat split. Qed.

Lemma step_status (json_loads : decoder) (w : world) (c : config) :
  pc c = Coder \/ pc c = Decide \/
  status (st (step json_loads w c)) = status (st c).
Proof.
  destruct (pc c) eqn:Hpc; [now left | | | now right; left | |].
  - right; right. destruct (step_executor json_loads w c Hpc) as [_ ->].
    apply executor_node_fields.
  - right; right. unfold step. rewrite Hpc. cbn [st].
    apply critic_node_fields.
  - right; right. unfold step. now rewrite Hpc.
  - right; right. unfold step. now rewrite Hpc.
Qed.

(** C3, as stated, fails: after a generation step whose model call raised,
    the next node is the executor, the critic follows and the policy is
    evaluated on the state with status [failed]; the policy sends it back to
    the coder, and the next generation sets the status to [in_progress]
    again. *)
Lemma failed_generation_does_not_end_the_run :
  let c0 := initial_config ∅ "Create a bar chart" "https://example.com/data.csv" 3 in
  let c1 := step sample_decoder model_down c0 in
  let c3 := run sample_decoder [model_replies "fine"; model_replies "fine"] c1 in
  let c5 := run sample_decoder [model_replies "fine"; model_replies "print(1)"] c3 in
  (status (st c1) = "failed" /\ pc c1 = Executor) /\
  (status (st c3) = "failed" /\ pc c3 = Decide /\
   execution_result (st c3) <> execution_result (st c1) /\
   critic_evaluation (st c3) <> critic_evaluation (st c1)) /\
  status (st c5) = "in_progress".
Proof. vm_compute. repeat split; discriminate. Qed.

(** C3, amended: a generation step whose model call raised sets
    [error_message] and status [failed] and leaves the iteration count, but
    the run goes on: the executor and the critic run next on that state and
    leave its status, and the policy is then evaluated on it. Only the coder
    and the policy ever change the status. *)
Theorem failed_generation_continues (json_loads : decoder) (w : world) (c : config)
    (e : string) :
  pc c = Coder -> llm_reply w = Raises e ->
  let c1 := step json_loads w c in
  pc c1 = Executor /\
  status (st c1) = "failed" /\
  error_message (st c1) = PStr ("Coder Agent Error: " +:+ e) /\
  iteration (st c1) = iteration (st c) /\
  (forall w2 w3,
     pc (step json_loads w2 c1) = Critic /\
     status (st (step json_loads w2 c1)) = "failed" /\
     pc (run json_loads [w2; w3] c1) = Decide /\
     status (st (run json_loads [w2; w3] c1)) = "failed") /\
  (forall w' c',
     pc c' = Coder \/ pc c' = Decide \/
     status (st (step json_loads w' c')) = status (st c')).
Proof.
  intros Hpc Hreply. cbv zeta.
  assert (H1 : step json_loads w c =
               {| pc := Executor; st := coder_node (Raises e) (st c); files := files c |}).
  { unfold step. now rewrite Hpc, Hreply. }
  rewrite H1. clear H1.
  set (c1 := {| pc := Executor; st := coder_node (Raises e) (st c); files := files c |}).
  assert (Hpc1 : pc c1 = Executor) by reflexivity.
  assert (Hst1 : status (st c1) = "failed") by reflexivity.
  assert (H2 : forall w2,
             pc (step json_loads w2 c1) = Critic /\
             status (st (step json_loads w2 c1)) = "failed").
  { intros w2. destruct (step_executor json_loads w2 c1 Hpc1) as [-> ->].
    split; [reflexivity |]. rewrite <- Hst1. apply executor_node_fields. }
  split; [reflexivity |]. split; [reflexivity |]. split; [reflexivity |].
  split; [reflexivity |]. split; [| apply step_status].
  intros w2 w3. destruct (H2 w2) as [Hpc2 Hst2].
  split; [exact Hpc2 |]. split; [exact Hst2 |].
  change (run json_loads [w2; w3] c1)
    with (step json_loads w3 (step json_loads w2 c1)).
  unfold step at 1 3. rewrite Hpc2. cbn [pc st].
  split; [reflexivity |]. rewrite <- Hst2. apply critic_node_fields.
Qed.

Lemma failed_generation_continues_witness :
  let c := initial_config ∅ "Create a bar chart" "https://example.com/data.csv" 3 in
  pc (step sample_decoder model_down c) = Executor /\
  status (st (step sample_decoder model_down c)) = "failed".
Proof.
  cbv zeta.
  destruct (failed_generation_continues sample_decoder model_down
              (initial_config ∅ "Create a bar chart" "https://example.com/data.csv" 3)
              "Connection error." eq_refl eq_refl) as (H1 & H2 & _).
  split; [exact H1 | exact H2].
Defined.

(** * Job supervisor *)

Lemma cancel_job_lookup (job_id : string) (store : jobs_store) (job : Job.t) :
  store !! job_id = Some job ->
  cancel_job job_id store =
  if bool_decide (Job.status job ∈ ["completed"; "failed"])
  then (HTTPException 400 "Cannot cancel completed job", store)
  else (Message ("Job " +:+ job_id +:+ " cancelled"),
        <[job_id := Job.set_status "cancelled" job]> store).
Proof. intros H. unfold cancel_job. now rewrite H. Qed.

Lemma cancel_job_keeps_cancelled (id job_id : string) (store : jobs_store) :
  Job.status <$> store !! job_id = Some "cancelled" ->
  Job.status <$> (cancel_job id store).2 !! job_id = Some "cancelled".
Proof.
  intros H. unfold cancel_job.
  destruct (store !! id) as [job|] eqn:Hid; [| exact H].
  destruct (bool_decide _); [exact H |]. cbn [snd].
  destruct (decide (id = job_id)) as [-> | Hne].
  - now rewrite lookup_insert_eq.
  - now rewrite lookup_insert_ne.
Qed.

Lemma cancel_requests_keep_cancelled (ids : list string) : forall (store : jobs_store) job_id,
  Job.status <$> store !! job_id = Some "cancelled" ->
  Job.status <$> cancel_requests ids store !! job_id = Some "cancelled".
Proof.
  induction ids as [|id ids IH]; intros store job_id H; [exact H |].
  apply (IH (cancel_job id store).2). now apply cancel_job_keeps_cancelled.
Qed.

Lemma run_job_returns (job_id : string) (store : jobs_store) (job : Job.t)
    (result : VisualizationState) :
  store !! job_id = Some job ->
  run_job job_id (Returns result) store =
  Returns (<[job_id := Job.set_status "completed"
                         (Job.set_result result (Job.set_status "processing" job))]> store).
Proof.
  intros H. unfold run_job, update_job. rewrite H.
  rewrite !lookup_insert_eq. now rewrite !insert_insert_eq.
Qed.

(** C9, as stated, fails twice: cancelling a job that is already
    [cancelled] is acknowledged, not rejected; and the background task of a
    job cancelled while it was queued puts it to [completed] when the
    workflow returns. *)
Lemma cancelled_job_is_not_terminal :
  let store0 : jobs_store := {[ "a1b2c3d4" := sample_job "queued" ]} in
  let store1 := (cancel_job "a1b2c3d4" store0).2 in
  Job.status <$> store1 !! "a1b2c3d4" = Some "cancelled" /\
  (cancel_job "a1b2c3d4" store1).1 = Message "Job a1b2c3d4 cancelled" /\
  exists store2,
    run_job "a1b2c3d4" (Returns (initial_state "r" "u" 2)) store1 = Returns store2 /\
    Job.status <$> store2 !! "a1b2c3d4" = Some "completed".
Proof.
  cbv zeta.
  assert (Hopen : forall x : string,
            x = "queued" \/ x = "cancelled" ->
            bool_decide (x ∈ ["completed"; "failed"]) = false).
  { intros x Hx. apply bool_decide_eq_false_2.
    rewrite !elem_of_cons, elem_of_nil. destruct Hx as [-> | ->]; intuition discriminate. }
  assert (H0 : ({[ "a1b2c3d4" := sample_job "queued" ]} : jobs_store) !! "a1b2c3d4"
               = Some (sample_job "queued")) by apply lookup_singleton_eq.
  rewrite (cancel_job_lookup _ _ _ H0),
    (Hopen (Job.status (sample_job "queued"))) by now left.
  cbn [snd].
  assert (H1 : (<[ "a1b2c3d4" := Job.set_status "cancelled" (sample_job "queued") ]>
                  ({[ "a1b2c3d4" := sample_job "queued" ]} : jobs_store)) !! "a1b2c3d4"
               = Some (Job.set_status "cancelled" (sample_job "queued")))
    by apply lookup_insert_eq.
  split; [now rewrite H1 |].
  split.
  { rewrite (cancel_job_lookup _ _ _ H1),
      (Hopen (Job.status (Job.set_status "cancelled" (sample_job "queued")))) by now right.
    reflexivity. }
  eexists. split; [apply (run_job_returns _ _ _ _ H1) |].
  now rewrite lookup_insert_eq.
Qed.

(** C9, amended: for a stored job, cancel is rejected when its status is
    [completed] or [failed]; otherwise, for a queued, processing or already
    cancelled job, it is acknowledged and sets the status to [cancelled],
    touching nothing else; and a cancelled job stays cancelled under any
    further cancel requests. *)
Theorem cancel_job_lifecycle (job_id : string) (store : jobs_store) (job : Job.t) :
  store !! job_id = Some job ->
  (Job.status job = "completed" \/ Job.status job = "failed" ->
   cancel_job job_id store = (HTTPException 400 "Cannot cancel completed job", store)) /\
  (Job.status job <> "completed" -> Job.status job <> "failed" ->
   cancel_job job_id store =
   (Message ("Job " +:+ job_id +:+ " cancelled"),
    <[job_id := Job.set_status "cancelled" job]> store)) /\
  (Job.status job = "cancelled" ->
   forall ids, Job.status <$> cancel_requests ids store !! job_id = Some "cancelled").
Proof.
  intros H. rewrite (cancel_job_lookup _ _ _ H). repeat split.
  - intros Hs. rewrite bool_decide_eq_true_2; [reflexivity |].
    destruct Hs as [-> | ->]; set_solver.
  - intros Hc Hf. rewrite bool_decide_eq_false_2; [reflexivity |].
    rewrite !elem_of_cons, elem_of_nil. tauto.
  - intros Hs ids. apply cancel_requests_keep_cancelled. now rewrite H; cbn; rewrite Hs.
Qed.

Lemma cancel_job_lifecycle_witness :
  cancel_job "a1b2c3d4" {[ "a1b2c3d4" := sample_job "processing" ]} =
  (Message "Job a1b2c3d4 cancelled",
   <[ "a1b2c3d4" := Job.set_status "cancelled" (sample_job "processing") ]>
     {[ "a1b2c3d4" := sample_job "processing" ]}).
Proof.
  apply (cancel_job_lifecycle "a1b2c3d4" {[ "a1b2c3d4" := sample_job "processing" ]}
           (sample_job "processing") (lookup_singleton_eq _ _));
    discriminate.
Defined.

(** C10: when the workflow call returns, whatever state it returns, the
    background task stores that state as the job's result and sets the
    lifecycle status to [completed]; the status inside the returned state
    is not read. Other jobs are untouched. *)
Theorem run_job_completes_on_return (job_id : string) (store : jobs_store) (job : Job.t)
    (result : VisualizationState) :
  store !! job_id = Some job ->
  exists store',
    run_job job_id (Returns result) store = Returns store' /\
    Job.status <$> store' !! job_id = Some "completed" /\
    Job.result <$> store' !! job_id = Some (Some result) /\
    Job.error <$> store' !! job_id = Some (Job.error job) /\
    forall id, id <> job_id -> store' !! id = store !! id.
Proof.
  intros H. eexists. split; [apply (run_job_returns _ _ _ _ H) |].
  rewrite !lookup_insert_eq. repeat split.
  intros id Hne. now rewrite lookup_insert_ne.
Qed.

(** A returned state whose own status is [failed], as a failed generation
    step leaves it: the job ends [completed]. *)
Lemma run_job_completes_on_return_witness :
  let result := coder_node (Raises "Connection error.") (initial_state "r" "u" 2) in
  status result = "failed" /\
  exists store',
    run_job "a1b2c3d4" (Returns result) {[ "a1b2c3d4" := sample_job "queued" ]}
      = Returns store' /\
    Job.status <$> store' !! "a1b2c3d4" = Some "completed".
Proof.
  cbv zeta. split; [reflexivity |].
  destruct (run_job_completes_on_return "a1b2c3d4" {[ "a1b2c3d4" := sample_job "queued" ]}
              (sample_job "queued")
              (coder_node (Raises "Connection error.") (initial_state "r" "u" 2))
              (lookup_singleton_eq _ _)) as (store' & Hrun & Hstatus & _).
  exists store'. split; [exact Hrun | exact Hstatus].
Defined.

(** When the workflow call raises, the handler records the message and the
    job ends [failed]. *)
Lemma run_job_fails_on_raise (job_id e : string) (store : jobs_store) (job : Job.t) :
  store !! job_id = Some job ->
  exists store',
    run_job job_id (Raises e) store = Returns store' /\
    Job.status <$> store' !! job_id = Some "failed" /\
    Job.error <$> store' !! job_id = Some (Some e).
Proof.
  intros H. unfold run_job, run_job_handler, update_job. rewrite H.
  cbn [bind]. rewrite !lookup_insert_eq. cbn [bind]. rewrite !lookup_insert_eq.
  eexists. split; [reflexivity |]. now rewrite !lookup_insert_eq.
Qed.

(** * Further properties of the code extractor *)

Lemma extract_code_block_cases (text : string) :
  (exists opening, first_block opening text (extract_code_block text)) \/
  (extract_code_block text = text /\
   ~ has_block fence_python text /\ ~ has_block fence_bare text).
Proof.
  unfold extract_code_block.
  destruct (re_findall_lazy_first fence_python fence_close text) as [x|] eqn:Hp.
  - left. exists fence_python. now apply re_findall_lazy_first_Some.
  - destruct (re_findall_lazy_first fence_bare fence_close text) as [x|] eqn:Hb.
    + left. exists fence_bare. now apply re_findall_lazy_first_Some.
    + right. split; [reflexivity |].
      split; now apply re_findall_lazy_first_None.
Qed.

(** The extractor never invents text: what it returns is a contiguous part
    of its input. *)
Theorem extract_code_block_is_part_of_text (text : string) :
  exists pre post, text = pre +:+ extract_code_block text +:+ post.
Proof.
  pose proof (extract_code_block_cases text) as H.
  remember (extract_code_block text) as x eqn:Hx. clear Hx.
  destruct H as [(opening & pre & rest & post & [E _] & [E' _]) | [E _]].
  - exists (pre +:+ opening), (fence_close +:+ post).
    now rewrite E, E', !Str.app_assoc.
  - exists "", "". now rewrite E, Str.app_nil_r.
Qed.

(** When the extractor finds a block, python-tagged or bare, the code it
    returns holds no closing delimiter: it stops at the first newline
    followed by a fence, also when the code itself was meant to contain
    one. *)
Theorem extracted_block_has_no_closing_fence (text a b : string) :
  has_block fence_python text \/ has_block fence_bare text ->
  extract_code_block text <> a +:+ fence_close +:+ b.
Proof.
  intros Hblock Hx.
  destruct (extract_code_block_cases text)
    as [(opening & pre & rest & post & _ & [E Hmin]) | (_ & Hp & Hb)];
    [| tauto].
  rewrite Hx in E, Hmin.
  specialize (Hmin a (b +:+ fence_close +:+ post)).
  rewrite !Str.app_assoc in E. specialize (Hmin E).
  rewrite !Str.app_length in Hmin. simpl in Hmin. lia.
Qed.

Lemma extracted_block_has_no_closing_fence_witness :
  extract_code_block ("```python" +:+ nl +:+ "a" +:+ nl +:+ "```" +:+ nl +:+ "b" +:+ nl +:+ "```")
  <> "a" +:+ fence_close +:+ nl +:+ "b".
Proof.
  apply (extracted_block_has_no_closing_fence
           ("```python" +:+ nl +:+ "a" +:+ nl +:+ "```" +:+ nl +:+ "b" +:+ nl +:+ "```")
           "a" (nl +:+ "b")).
  left. exists "", "a", (nl +:+ "b" +:+ nl +:+ "```"). reflexivity.
Defined.

(** * Further properties of the evaluation parser *)

Lemma strip_prefix_char_head (c x : ascii) (s : string) :
  strip_prefix (String c "") (String x s) = if Ascii.eqb c x then Some s else None.
Proof. reflexivity. Qed.

Lemma find_first_char_skips (c : ascii) (pre : string) : forall rest,
  contains_char c pre = false ->
  find_first (String c "") (pre +:+ String c rest) = Some (pre, rest).
Proof.
  induction pre as [|x pre IH]; intros rest H.
  - change ("" +:+ String c rest) with (String c rest).
    now rewrite find_first_unfold, strip_prefix_char_head, Ascii.eqb_refl.
  - cbn in H. apply orb_false_iff in H as [Hx Hpre].
    rewrite Str.app_cons, find_first_unfold, strip_prefix_char_head.
    rewrite Ascii.eqb_sym, Hx. now rewrite (IH rest Hpre).
Qed.

Lemma find_last_char_none (c : ascii) (s : string) :
  contains_char c s = false -> find_last_char c s = None.
Proof.
  induction s as [|x s IH]; [reflexivity |]. cbn.
  intros H. apply orb_false_iff in H as [Hx Hs]. now rewrite (IH Hs), Hx.
Qed.

Lemma find_last_char_last (c : ascii) (inner : string) : forall post,
  contains_char c post = false ->
  find_last_char c (inner +:+ String c post) = Some (inner, post).
Proof.
  induction inner as [|x inner IH]; intros post H.
  - change ("" +:+ String c post) with (String c post).
    cbn. now rewrite (find_last_char_none c post H), Ascii.eqb_refl.
  - rewrite Str.app_cons. cbn. now rewrite (IH post H).
Qed.

(** A document wrapped in prose is found: when the text before the
    document holds no opening brace and the text after it no closing brace,
    the parser returns exactly what the decoder makes of the document. *)
Theorem parse_json_evaluation_document_in_prose (json_loads : decoder)
    (pre inner post : string) (d : dict) :
  contains_char "{" pre = false ->
  contains_char "}" post = false ->
  json_loads ("{" +:+ inner +:+ "}") = Decoded d ->
  parse_json_evaluation json_loads (pre +:+ "{" +:+ inner +:+ "}" +:+ post) = Returns d.
Proof.
  intros Hpre Hpost Hd.
  unfold parse_json_evaluation, parse_json_body, re_search_braces.
  change (pre +:+ "{" +:+ inner +:+ "}" +:+ post)
    with (pre +:+ String "{" (inner +:+ String "}" post)).
  rewrite (find_first_char_skips "{" pre _ Hpre).
  rewrite (find_last_char_last "}" inner post Hpost).
  now rewrite Hd.
Qed.

Lemma parse_json_evaluation_document_in_prose_witness :
  parse_json_evaluation sample_decoder
    ("Here is my evaluation: " +:+ doc_score_9 +:+ " Hope it helps.")
  = Returns [("average_score", PFloat (FFinite (9 # 1)))].
Proof.
  apply (parse_json_evaluation_document_in_prose sample_decoder
           "Here is my evaluation: "
           (dq +:+ "average_score" +:+ dq +:+ ": 9.0")
           " Hope it helps.");
    reflexivity.
Defined.

(** * Further properties of the sandboxed executor *)

(** The executor node stores the result of the call, and touches the
    error message only after a run that did not succeed: a successful run
    leaves an earlier message in place, any other run replaces it with the
    [stderr] of the result, an empty one included. *)
Theorem executor_node_error_message (fs : gset string) (now : string)
    (env : process_outcome) (state : VisualizationState) :
  execution_result (executor_node fs now env state).2 =
    (execute_code_safely fs now (generated_code state) 30 env).2 /\
  (executor_node fs now env state).1 =
    (execute_code_safely fs now (generated_code state) 30 env).1 /\
  error_message (executor_node fs now env state).2 =
    match env with
    | RunCompletes rc out err => if rc =? 0 then error_message state else PStr err
    | RunTimesOut => PStr "Code execution exceeded 30-second timeout"
    | OpenRaises e | WriteRaises e | RunRaises e => PStr e
    end.
Proof.
  destruct env as [e|e|e| |rc out err]; try (repeat split; reflexivity).
  unfold executor_node, execute_code_safely, execute_code_body. cbn.
  destruct (rc =? 0); repeat split; reflexivity.
Qed.

(** * Further properties of the graph *)

Lemma coder_node_frame (reply : outcome string) (state : VisualizationState) :
  user_request (coder_node reply state) = user_request state /\
  dataset_url (coder_node reply state) = dataset_url state /\
  execution_result (coder_node reply state) = execution_result state /\
  critic_evaluation (coder_node reply state) = critic_evaluation state /\
  final_viz_path (coder_node reply state) = final_viz_path state.
Proof. destruct reply; repeat split. Qed.

Lemma executor_node_frame (fs : gset string) (now : string) (env : process_outcome)
    (state : VisualizationState) :
  user_request (executor_node fs now env state).2 = user_request state /\
  dataset_url (executor_node fs now env state).2 = dataset_url state /\
  generated_code (executor_node fs now env state).2 = generated_code state /\
  critic_evaluation (executor_node fs now env state).2 = critic_evaluation state /\
  final_viz_path (executor_node fs now env state).2 = final_viz_path state.
Proof.
  unfold executor_node.
  destruct (execute_code_safely _ _ _ _ _) as [fs' result].
  destruct (negb _); repeat split.
Qed.

Lemma critic_node_frame (json_loads : decoder) (reply : outcome string)
    (state : VisualizationState) :
  user_request (critic_node json_loads reply state) = user_request state /\
  dataset_url (critic_node json_loads reply state) = dataset_url state /\
  generated_code (critic_node json_loads reply state) = generated_code state /\
  execution_result (critic_node json_loads reply state) = execution_result state /\
  final_viz_path (critic_node json_loads reply state) = final_viz_path state.
Proof. unfold critic_node. destruct (bind reply _); repeat split. Qed.

Lemma ge_8_true (v : pyval) : ge_8 v = Returns true -> at_least_8 v.
Proof.
  destruct v as [ |b|z|[q|p| ]|s|l|d]; simpl; try discriminate.
  - intros [= H]. now apply Z.leb_le.
  - intros [= H]. now apply Qle_bool_iff.
  - intros [= ->]. exact I.
Qed.

(** What [should_continue] does to a state, branch by branch. *)
Lemma should_continue_cases (state : VisualizationState) :
  match should_continue state with
  | Returns (RouteEnd, state') =>
      (max_iterations state <= iteration state /\
       state' = set_status "completed" state) \/
      (iteration state < max_iterations state /\
       at_least_8 (average_score state) /\ last_execution_succeeded state /\
       state' = set_final_viz_path "visualization.png" (set_status "completed" state))
  | Returns (RouteCoder, state') =>
      iteration state < max_iterations state /\ state' = state
  | Raises _ => iteration state < max_iterations state
  end.
Proof.
  unfold should_continue.
  destruct (Z.leb_spec (max_iterations state) (iteration state)) as [Hle | Hlt];
    [now left |].
  fold (average_score state).
  destruct (ge_8 (average_score state)) as [[]|e] eqn:Hge; cbn [bind andb];
    [| now split | exact Hlt].
  destruct (eq_str _ "success") eqn:Hex; [| now split].
  right. apply eq_str_true in Hex. apply ge_8_true in Hge. now repeat split.
Qed.

Lemma step_keeps_request (json_loads : decoder) (w : world) (c : config) :
  user_request (st (step json_loads w c)) = user_request (st c) /\
  dataset_url (st (step json_loads w c)) = dataset_url (st c) /\
  max_iterations (st (step json_loads w c)) = max_iterations (st c) /\
  iteration (st c) <= iteration (st (step json_loads w c)).
Proof.
  destruct (pc c) eqn:Hpc.
  - unfold step. rewrite Hpc. cbn [st].
    destruct (coder_node_frame (llm_reply w) (st c)) as (-> & -> & _).
    destruct (coder_node_fields (llm_reply w) (st c)) as [-> Hit].
    repeat split. destruct (llm_reply w); destruct Hit as [-> _]; lia.
  - destruct (step_executor json_loads w c Hpc) as [_ ->].
    destruct (executor_node_frame (files c) (clock w) (process w) (st c)) as (-> & -> & _).
    destruct (executor_node_fields (files c) (clock w) (process w) (st c)) as (-> & -> & _).
    repeat split. lia.
  - unfold step. rewrite Hpc. cbn [st].
    destruct (critic_node_frame json_loads (llm_reply w) (st c)) as (-> & -> & _).
    destruct (critic_node_fields json_loads (llm_reply w) (st c)) as (-> & -> & _).
    repeat split. lia.
  - unfold step. rewrite Hpc.
    pose proof (should_continue_cases (st c)) as H.
    destruct (should_continue (st c)) as [[[] state']|e]; cbn [st].
    + destruct H as [_ ->]. repeat split. lia.
    + destruct H as [[_ ->] | (_ & _ & _ & ->)]; repeat split; cbn; lia.
    + repeat split. lia.
  - unfold step. rewrite Hpc. repeat split. lia.
  - unfold step. rewrite Hpc. repeat split. lia.
Qed.

(** Along every run, from any configuration, the request, the dataset
    reference and the budget stay what they were, and the iteration count
    never goes down. *)
Theorem run_keeps_request (json_loads : decoder) (ws : list world) (c : config) :
  user_request (st (run json_loads ws c)) = user_request (st c) /\
  dataset_url (st (run json_loads ws c)) = dataset_url (st c) /\
  max_iterations (st (run json_loads ws c)) = max_iterations (st c) /\
  iteration (st c) <= iteration (st (run json_loads ws c)).
Proof.
  revert c. induction ws as [|w ws IH]; intros c.
  { change (run json_loads [] c) with c.
    split; [reflexivity | split; [reflexivity | split; [reflexivity | lia]]]. }
  change (run json_loads (w :: ws) c) with (run json_loads ws (step json_loads w c)).
  destruct (IH (step json_loads w c)) as (-> & -> & -> & Hit).
  destruct (step_keeps_request json_loads w c) as (-> & -> & -> & Hit').
  repeat split. lia.
Qed.

Lemma parse_json_evaluation_nothing_decodes (json_loads : decoder) (text : string) :
  (forall span d, brace_span text span -> json_loads span <> Decoded d) ->
  parse_json_evaluation json_loads text = Returns fallback_evaluation \/
  exists e, parse_json_evaluation json_loads text = Raises e.
Proof.
  intros Hnone. unfold parse_json_evaluation, parse_json_body.
  destruct (re_search_braces text) as [span|] eqn:Hs; [| now left].
  apply re_search_braces_span in Hs.
  destruct (json_loads span) as [d|e|e] eqn:Hd; [| now left | right; now exists e].
  now destruct (Hnone span d Hs).
Qed.

(** A lost evaluation never ends the run on quality: after a critic whose
    model call raised, or whose reply holds no span that decodes (the
    decoder raising on it included), the policy sends the state back to the
    coder while the budget lasts, and ends the run only when the budget is
    used up, however well the code ran. *)
Theorem lost_evaluation_never_accepts (json_loads : decoder) (reply : outcome string)
    (state : VisualizationState) :
  match reply with
  | Raises _ => True
  | Returns content =>
      forall span d, brace_span content span -> json_loads span <> Decoded d
  end ->
  let state' := critic_node json_loads reply state in
  should_continue state' =
  Returns (if max_iterations state <=? iteration state
           then (RouteEnd, set_status "completed" state')
           else (RouteCoder, state')).
Proof.
  intros Hlost. cbv zeta. unfold critic_node.
  destruct reply as [content|e]; cbn [bind].
  - destruct (parse_json_evaluation_nothing_decodes json_loads content Hlost)
      as [-> | [e ->]];
      unfold should_continue; cbn;
      now destruct (max_iterations state <=? iteration state).
  - unfold should_continue. cbn.
    now destruct (max_iterations state <=? iteration state).
Qed.

Lemma lost_evaluation_never_accepts_witness :
  let state :=
    set_iteration 1
      (set_execution_result [("status", PStr "success")]
         (initial_state "Create a bar chart" "https://example.com/data.csv" 5)) in
  should_continue (critic_node sample_decoder (Returns "Looks great, 10/10!") state) =
  Returns (RouteCoder, critic_node sample_decoder (Returns "Looks great, 10/10!") state).
Proof.
  cbv zeta.
  apply (lost_evaluation_never_accepts sample_decoder (Returns "Looks great, 10/10!")).
  intros span d Hs.
  destruct (no_brace_no_span "Looks great, 10/10!" span eq_refl Hs).
Defined.

Lemma step_end_state (json_loads : decoder) (w : world) (c : config) (n : Z) :
  end_state_invariant n c -> end_state_invariant (n + 1) (step json_loads w c).
Proof.
  intros (Hpath & Hstatus & Hend & Hcount). unfold end_state_invariant.
  destruct (pc c) eqn:Hpc.
  - unfold step. rewrite Hpc. cbn [pc st].
    destruct (coder_node_frame (llm_reply w) (st c)) as (_ & _ & _ & _ & ->).
    destruct (coder_node_fields (llm_reply w) (st c)) as [_ Hit].
    split; [exact Hpath |].
    destruct (llm_reply w); destruct Hit as (-> & -> & _) || destruct Hit as [-> ->];
      (split; [tauto | split; [discriminate | lia]]).
  - destruct (step_executor json_loads w c Hpc) as [-> ->].
    destruct (executor_node_frame (files c) (clock w) (process w) (st c))
      as (_ & _ & _ & _ & ->).
    destruct (executor_node_fields (files c) (clock w) (process w) (st c))
      as (-> & _ & ->).
    split; [exact Hpath | split; [exact Hstatus | split; [discriminate | lia]]].
  - unfold step. rewrite Hpc. cbn [pc st].
    destruct (critic_node_frame json_loads (llm_reply w) (st c)) as (_ & _ & _ & _ & ->).
    destruct (critic_node_fields json_loads (llm_reply w) (st c)) as (-> & _ & ->).
    split; [exact Hpath | split; [exact Hstatus | split; [discriminate | lia]]].
  - unfold step. rewrite Hpc.
    destruct (should_continue (st c)) as [[[] state']|e] eqn:Hd; cbn [pc st].
    + split; [exact Hpath | split; [exact Hstatus | split; [discriminate | lia]]].
    + split; [exact Hpath | split; [exact Hstatus | split; [| lia]]].
      intros _. now exists state'.
    + split; [exact Hpath | split; [exact Hstatus | split; [discriminate | lia]]].
  - unfold step. rewrite Hpc, Hpc.
    split; [exact Hpath | split; [exact Hstatus | split; [exact Hend | lia]]].
  - unfold step. rewrite Hpc, Hpc.
    split; [exact Hpath | split; [exact Hstatus | split; [discriminate | lia]]].
Qed.

Lemma run_end_state (json_loads : decoder) (ws : list world) : forall c n,
  end_state_invariant n c ->
  end_state_invariant (n + Z.of_nat (length ws)) (run json_loads ws c).
Proof.
  induction ws as [|w ws IH]; intros c n H.
  - change (run json_loads [] c) with c. cbn [length]. now rewrite Z.add_0_r.
  - change (run json_loads (w :: ws) c) with (run json_loads ws (step json_loads w c)).
    replace (n + Z.of_nat (length (w :: ws))) with (n + 1 + Z.of_nat (length ws))
      by (cbn [length]; lia).
    apply IH. now apply step_end_state.
Qed.

Lemma emits_end_cases (s : VisualizationState) :
  emits_end s ->
  max_iterations s <= iteration s \/
  (iteration s < max_iterations s /\
   at_least_8 (average_score s) /\ last_execution_succeeded s).
Proof.
  intros [s' H]. pose proof (should_continue_cases s) as Hc. rewrite H in Hc.
  destruct Hc as [[Hle _] | (Hlt & Hs & Hx & _)]; [now left | now right].
Qed.

Lemma workflow_returns_ending (json_loads : decoder) (ws : list world) (fs : gset string)
    (request url : string) (max : Z) (s : VisualizationState) :
  0 < max ->
  run_visualization_workflow json_loads ws fs request url max = Some (Returns s) ->
  max_iterations s = max /\ iteration s <= max /\ iteration s <= 8 /\
  emits_end s /\ final_viz_path s = "" /\
  (status s = "in_progress" \/ status s = "failed").
Proof.
  intros Hmax. unfold run_visualization_workflow. cbv zeta.
  set (ws' := take (4 * round_limit) ws).
  assert (Hlen : (length ws' <= 32)%nat).
  { unfold ws'. rewrite length_take. change (4 * round_limit)%nat with 32%nat. lia. }
  assert (Hb : within_budget (initial_config fs request url max)).
  { split; cbn; [lia | intros _; lia]. }
  assert (H0 : end_state_invariant 0 (initial_config fs request url max)).
  { split; [reflexivity |]. split; [now left |]. split; [discriminate | cbn; lia]. }
  pose proof (run_end_state json_loads ws' _ _ H0) as (Hpath & Hstatus & Hend & Hcount).
  destruct (run_within_budget json_loads ws' _ Hb) as [[Hle _] Hsame].
  change (max_iterations (st (initial_config fs request url max))) with max in Hsame.
  destruct (pc (run json_loads ws' (initial_config fs request url max)));
    try discriminate; try (destruct (decide _); discriminate).
  intros [= <-].
  split; [exact Hsame |]. split; [rewrite Hsame in Hle; exact Hle |]. split; [lia |].
  split; [now apply Hend |]. now split.
Qed.

(** A state the workflow call returns carries the budget it was started
    with and is one the policy ends on: its iteration count has reached the
    budget, or it scored 8.0 or more on code that ran. The count is 8 at
    most, the step limit of the graph library letting no longer run return.
    And because the policy is an edge whose writes the library drops, the
    returned state never has status [completed] and never names an
    artifact: its status is the one the last generation step left. *)
Theorem returned_state_ending (json_loads : decoder) (ws : list world) (fs : gset string)
    (request url : string) (max : Z) (s : VisualizationState) :
  0 < max ->
  run_visualization_workflow json_loads ws fs request url max = Some (Returns s) ->
  max_iterations s = max /\ iteration s <= 8 /\
  (iteration s = max \/
   (iteration s < max /\ at_least_8 (average_score s) /\ last_execution_succeeded s)) /\
  final_viz_path s = "" /\
  (status s = "in_progress" \/ status s = "failed").
Proof.
  intros Hmax Hrun.
  destruct (workflow_returns_ending _ _ _ _ _ _ _ Hmax Hrun)
    as (Hsame & Hle & H8 & Hend & Hpath & Hstatus).
  split; [exact Hsame |]. split; [exact H8 |]. split; [| now split].
  destruct (emits_end_cases s Hend) as [H | H]; [left; lia | right; now rewrite <- Hsame].
Qed.

Lemma returned_state_ending_witness :
  let s := st (run sample_decoder (repeat (model_replies doc_score_9) 4)
                 (initial_config ∅ "Create a scatter plot of weight vs horsepower"
                    "https://example.com/cars.csv" 3)) in
  max_iterations s = 3 /\ iteration s <= 8 /\
  (iteration s = 3 \/
   (iteration s < 3 /\ at_least_8 (average_score s) /\ last_execution_succeeded s)) /\
  final_viz_path s = "" /\
  (status s = "in_progress" \/ status s = "failed").
Proof.
  cbv zeta.
  apply (returned_state_ending sample_decoder (repeat (model_replies doc_score_9) 4) ∅
           "Create a scatter plot of weight vs horsepower" "https://example.com/cars.csv" 3);
    [reflexivity | vm_compute; reflexivity].
Defined.

(** The first scenario of the specification: a model that always scores 9
    on code that runs ends the run at iteration 1. The returned state shows
    neither the status [completed] nor the artifact path. *)
Example score_9_ends_at_the_first_round :
  let s := st (run sample_decoder (repeat (model_replies doc_score_9) 4)
                 (initial_config ∅ "Create a scatter plot of weight vs horsepower"
                    "https://example.com/cars.csv" 3)) in
  iteration s = 1 /\ status s = "in_progress" /\ final_viz_path s = "".
Proof. vm_compute. repeat split. Qed.

Lemma step_finished (json_loads : decoder) (w : world) (c : config) :
  finished c -> step json_loads w c = c.
Proof. unfold finished, step. now destruct (pc c). Qed.

Lemma run_finished (json_loads : decoder) (ws : list world) : forall c,
  finished c -> run json_loads ws c = c.
Proof.
  induction ws as [|w ws IH]; intros c H; [reflexivity |].
  change (run json_loads (w :: ws) c) with (run json_loads ws (step json_loads w c)).
  rewrite (step_finished json_loads w c H). now apply IH.
Qed.

(** One round from the coder, the model replying to it: the run is over,
    or the coder is next again with the count one higher and still below
    the budget. *)
Lemma round_advances (json_loads : decoder) (w1 w2 w3 w4 : world) (c : config) :
  pc c = Coder -> replies w1 ->
  finished (run json_loads [w1; w2; w3; w4] c) \/
  (pc (run json_loads [w1; w2; w3; w4] c) = Coder /\
   iteration (st (run json_loads [w1; w2; w3; w4] c)) = iteration (st c) + 1 /\
   max_iterations (st (run json_loads [w1; w2; w3; w4] c)) = max_iterations (st c) /\
   iteration (st (run json_loads [w1; w2; w3; w4] c))
     < max_iterations (st (run json_loads [w1; w2; w3; w4] c))).
Proof.
  intros Hpc [content Hreply].
  change (run json_loads [w1; w2; w3; w4] c)
    with (step json_loads w4 (step json_loads w3 (step json_loads w2 (step json_loads w1 c)))).
  set (c1 := step json_loads w1 c).
  assert (H1 : pc c1 = Executor /\ iteration (st c1) = iteration (st c) + 1 /\
               max_iterations (st c1) = max_iterations (st c)).
  { unfold c1, step. rewrite Hpc, Hreply. now repeat split. }
  destruct H1 as (Hpc1 & Hit1 & Hmax1).
  set (c2 := step json_loads w2 c1).
  destruct (step_executor json_loads w2 c1 Hpc1) as [Hpc2 Hst2]. fold c2 in Hpc2, Hst2.
  destruct (executor_node_fields (files c1) (clock w2) (process w2) (st c1))
    as (Hit2 & Hmax2 & _).
  rewrite <- Hst2 in Hit2, Hmax2.
  set (c3 := step json_loads w3 c2).
  assert (H3 : pc c3 = Decide /\ iteration (st c3) = iteration (st c2) /\
               max_iterations (st c3) = max_iterations (st c2)).
  { unfold c3, step. rewrite Hpc2. cbn [pc st].
    destruct (critic_node_fields json_loads (llm_reply w3) (st c2)) as (-> & -> & _).
    now repeat split. }
  destruct H3 as (Hpc3 & Hit3 & Hmax3).
  assert (H4 : step json_loads w4 c3 =
               match should_continue (st c3) with
               | Returns (RouteCoder, _) =>
                   {| pc := Coder; st := st c3; files := files c3 |}
               | Returns (RouteEnd, _) =>
                   {| pc := EndNode; st := st c3; files := files c3 |}
               | Raises e => {| pc := Aborted e; st := st c3; files := files c3 |}
               end).
  { unfold step at 1. now rewrite Hpc3. }
  rewrite H4. clear H4. unfold finished.
  pose proof (should_continue_cases (st c3)) as H.
  destruct (should_continue (st c3)) as [[[] state']|e]; cbn [pc st].
  - right. destruct H as [Hlt _]. split; [reflexivity |]. repeat split; lia.
  - now left.
  - now left.
Qed.

Lemma run_finishes_within (json_loads : decoder) (k : nat) : forall c ws,
  pc c = Coder ->
  iteration (st c) < max_iterations (st c) ->
  max_iterations (st c) - iteration (st c) <= Z.of_nat k ->
  Forall replies ws -> (4 * k <= length ws)%nat ->
  finished (run json_loads ws c).
Proof.
  induction k as [|k IH]; intros c ws Hpc Hlt Hk Hws Hlen; [lia |].
  destruct ws as [|w1 [|w2 [|w3 [|w4 ws]]]]; cbn [length] in Hlen; try lia.
  change (run json_loads (w1 :: w2 :: w3 :: w4 :: ws) c)
    with (run json_loads ws (run json_loads [w1; w2; w3; w4] c)).
  inversion Hws as [|? ? Hw1 Hws1]; subst.
  inversion Hws1 as [|? ? _ Hws2]; subst.
  inversion Hws2 as [|? ? _ Hws3]; subst.
  inversion Hws3 as [|? ? _ Hws4]; subst.
  destruct (round_advances json_loads w1 w2 w3 w4 c Hpc Hw1)
    as [Hfin | (Hpc' & Hit' & Hmax' & Hlt')].
  - now rewrite (run_finished json_loads ws _ Hfin).
  - apply IH; [exact Hpc' | exact Hlt' | lia | exact Hws4 | lia].
Qed.

(** The workflow ends when the model answers: if every model call of the
    run replies, then four steps per unit of budget are enough for the
    workflow call to return or raise, whatever the replies say and however
    the executions go. *)
Theorem workflow_ends_within_budget (json_loads : decoder) (ws : list world)
    (fs : gset string) (request url : string) (max : Z) :
  0 < max -> Forall replies ws -> (4 * Z.to_nat max <= length ws)%nat ->
  is_Some (run_visualization_workflow json_loads ws fs request url max).
Proof.
  intros Hmax Hws Hlen.
  unfold run_visualization_workflow. cbv zeta.
  change (4 * round_limit)%nat with 32%nat.
  destruct (decide (32 < length ws)%nat) as [Hlong | Hshort].
  - destruct (pc (run json_loads (take 32 ws) (initial_config fs request url max)));
      eexists; reflexivity.
  - assert (Hfin : finished (run json_loads (take 32 ws)
                               (initial_config fs request url max))).
    { apply (run_finishes_within json_loads (Z.to_nat max));
        [reflexivity | exact Hmax | cbn; lia | now apply Forall_take |].
      rewrite length_take. lia. }
    unfold finished in Hfin.
    destruct (pc (run json_loads (take 32 ws) (initial_config fs request url max)));
      try contradiction; eexists; reflexivity.
Qed.

Lemma workflow_ends_within_budget_witness :
  is_Some (run_visualization_workflow sample_decoder
             (repeat (model_replies "print(1)") 8) ∅
             "Create a bar chart" "https://example.com/data.csv" 2).
Proof.
  apply workflow_ends_within_budget;
    [reflexivity | repeat constructor; eexists; reflexivity | cbn; lia].
Defined.

Lemma step_while_model_fails (json_loads : decoder) (w : world) (c : config) :
  model_fails w ->
  iteration (st c) = 0 /\ 0 < max_iterations (st c) /\
  (pc c = Coder \/ pc c = Executor \/ pc c = Critic \/
   (pc c = Decide /\ exists e, critic_evaluation (st c) = degraded_evaluation e)) ->
  iteration (st (step json_loads w c)) = 0 /\
  0 < max_iterations (st (step json_loads w c)) /\
  (pc (step json_loads w c) = Coder \/ pc (step json_loads w c) = Executor \/
   pc (step json_loads w c) = Critic \/
   (pc (step json_loads w c) = Decide /\
    exists e, critic_evaluation (st (step json_loads w c)) = degraded_evaluation e)).
Proof.
  intros [e Hw] (Hit & Hmax & [Hpc | [Hpc | [Hpc | [Hpc [e' Hcrit]]]]]).
  - unfold step. rewrite Hpc, Hw. cbn. repeat split; [exact Hit | exact Hmax | tauto].
  - destruct (step_executor json_loads w c Hpc) as [-> ->].
    destruct (executor_node_fields (files c) (clock w) (process w) (st c)) as (-> & -> & _).
    repeat split; [exact Hit | exact Hmax | tauto].
  - unfold step. rewrite Hpc, Hw. cbn.
    repeat split; [exact Hit | exact Hmax |]. right; right; right. split; eauto.
  - unfold step. rewrite Hpc. unfold should_continue. rewrite Hcrit, Hit.
    destruct (Z.leb_spec (max_iterations (st c)) 0) as [Hle | _]; [lia |].
    cbn. repeat split; [exact Hit | exact Hmax | tauto].
Qed.

Lemma run_while_model_fails (json_loads : decoder) (ws : list world) :
  Forall model_fails ws ->
  forall c,
    (iteration (st c) = 0 /\ 0 < max_iterations (st c) /\
     (pc c = Coder \/ pc c = Executor \/ pc c = Critic \/
      (pc c = Decide /\ exists e, critic_evaluation (st c) = degraded_evaluation e))) ->
    generated_code (st c) = "" ->
    (iteration (st (run json_loads ws c)) = 0 /\
     (pc (run json_loads ws c) = Coder \/ pc (run json_loads ws c) = Executor \/
      pc (run json_loads ws c) = Critic \/ pc (run json_loads ws c) = Decide)) /\
    generated_code (st (run json_loads ws c)) = "".
Proof.
  induction 1 as [|w ws Hw _ IH]; intros c Hc Hcode.
  - change (run json_loads [] c) with c. split; [| exact Hcode].
    destruct Hc as (? & _ & [? | [? | [? | [? _]]]]); tauto.
  - change (run json_loads (w :: ws) c)
      with (run json_loads ws (step json_loads w c)).
    apply IH; [now apply step_while_model_fails |].
    destruct Hw as [e Hw].
    destruct Hc as (_ & _ & [Hpc | [Hpc | [Hpc | [Hpc _]]]]).
    + unfold step. now rewrite Hpc, Hw.
    + destruct (step_executor json_loads w c Hpc) as [_ ->].
      now destruct (executor_node_frame (files c) (clock w) (process w) (st c))
        as (_ & _ & -> & _).
    + unfold step. rewrite Hpc. cbn [st].
      now destruct (critic_node_frame json_loads (llm_reply w) (st c))
        as (_ & _ & -> & _).
    + unfold step. rewrite Hpc.
      now destruct (should_continue (st c)) as [[[] state']|e'].
Qed.

(** While the model is down the workflow call never returns a state: if
    every model call of the run raises, the graph goes round without
    ending, iteration stays 0 and the executor keeps running the empty
    fragment the run started with, until the step limit of the graph
    library is reached and the call raises [GraphRecursionError]. *)
Theorem workflow_raises_while_model_fails (json_loads : decoder) (ws : list world)
    (fs : gset string) (request url : string) (max : Z) :
  0 < max -> Forall model_fails ws ->
  ~ finished (run json_loads ws (initial_config fs request url max)) /\
  iteration (st (run json_loads ws (initial_config fs request url max))) = 0 /\
  generated_code (st (run json_loads ws (initial_config fs request url max))) = "" /\
  run_visualization_workflow json_loads ws fs request url max =
    (if decide (4 * round_limit < length ws)%nat
     then Some (Raises graph_recursion_error)
     else None).
Proof.
  intros Hmax Hws.
  assert (Hstart : iteration (st (initial_config fs request url max)) = 0 /\
                   0 < max_iterations (st (initial_config fs request url max)) /\
                   (pc (initial_config fs request url max) = Coder \/
                    pc (initial_config fs request url max) = Executor \/
                    pc (initial_config fs request url max) = Critic \/
                    (pc (initial_config fs request url max) = Decide /\
                     exists e, critic_evaluation (st (initial_config fs request url max))
                               = degraded_evaluation e))).
  { cbn. repeat split; [exact Hmax | tauto]. }
  destruct (run_while_model_fails json_loads ws Hws _ Hstart eq_refl)
    as [[Hit Hpc] Hcode].
  split; [| split; [exact Hit | split; [exact Hcode |]]].
  - unfold finished. destruct Hpc as [-> | [-> | [-> | ->]]]; tauto.
  - unfold run_visualization_workflow. cbv zeta.
    destruct (run_while_model_fails json_loads (take (4 * round_limit) ws)
                (Forall_take _ _ _ Hws) _ Hstart eq_refl) as [[_ Hpc'] _].
    destruct Hpc' as [-> | [-> | [-> | ->]]]; reflexivity.
Qed.

Lemma workflow_raises_while_model_fails_witness :
  run_visualization_workflow sample_decoder (repeat model_down 40) ∅
    "Create a bar chart" "https://example.com/data.csv" 3
  = Some (Raises graph_recursion_error).
Proof.
  apply (workflow_raises_while_model_fails sample_decoder (repeat model_down 40) ∅
           "Create a bar chart" "https://example.com/data.csv" 3);
    [reflexivity | repeat constructor; eexists; reflexivity].
Defined.

(** * Further properties of the job supervisor *)

Lemma run_job_raises (job_id : string) (store : jobs_store) (job : Job.t) (e : string) :
  store !! job_id = Some job ->
  run_job job_id (Raises e) store =
  Returns (<[job_id := Job.set_status "failed"
                         (Job.set_error e (Job.set_status "processing" job))]> store).
Proof.
  intros H. unfold run_job, run_job_handler, update_job. rewrite H.
  cbn [bind]. rewrite !lookup_insert_eq. cbn [bind]. rewrite !lookup_insert_eq.
  now rewrite !insert_insert_eq.
Qed.

Lemma run_job_missing (job_id : string) (workflow : outcome VisualizationState)
    (store : jobs_store) :
  store !! job_id = None ->
  run_job job_id workflow store = Raises ("'" +:+ job_id +:+ "'").
Proof.
  intros H. unfold run_job, run_job_handler, update_job. now rewrite H.
Qed.

(** The background task lets an exception out in one case only: the job
    is not in the store, and then the handler's own write raises the
    [KeyError] again. For a stored job it always returns, whatever the
    workflow did, and it changes no other job. *)
Theorem run_job_raises_only_for_missing_job (job_id : string)
    (workflow : outcome VisualizationState) (store : jobs_store) :
  match store !! job_id with
  | None => run_job job_id workflow store = Raises ("'" +:+ job_id +:+ "'")
  | Some _ =>
      exists store',
        run_job job_id workflow store = Returns store' /\
        dom store' = dom store /\
        forall id, id <> job_id -> store' !! id = store !! id
  end.
Proof.
  destruct (store !! job_id) as [job|] eqn:H; [| now apply run_job_missing].
  assert (Hdom : forall j : Job.t, dom (<[job_id := j]> store) = dom store).
  { intros j. apply dom_insert_lookup_L. eauto. }
  destruct workflow as [result|e].
  - rewrite (run_job_returns _ _ _ _ H). eexists. split; [reflexivity |].
    split; [apply Hdom | intros id Hne; now rewrite lookup_insert_ne].
  - rewrite (run_job_raises _ _ _ _ H). eexists. split; [reflexivity |].
    split; [apply Hdom | intros id Hne; now rewrite lookup_insert_ne].
Qed.

(** When the workflow call raises, the handler records [str(e)] as the
    job's error, the job ends [failed], and its result stays what it was. *)
Theorem run_job_records_the_failure (job_id e : string) (store : jobs_store) (job : Job.t) :
  store !! job_id = Some job ->
  exists store',
    run_job job_id (Raises e) store = Returns store' /\
    Job.status <$> store' !! job_id = Some "failed" /\
    Job.error <$> store' !! job_id = Some (Some e) /\
    Job.result <$> store' !! job_id = Some (Job.result job).
Proof.
  intros H. rewrite (run_job_raises _ _ _ _ H). eexists. split; [reflexivity |].
  now rewrite !lookup_insert_eq.
Qed.

Lemma run_job_records_the_failure_witness :
  exists store',
    run_job "a1b2c3d4" (Raises "'>=' not supported between instances of 'str' and 'float'")
      {[ "a1b2c3d4" := sample_job "queued" ]} = Returns store' /\
    Job.status <$> store' !! "a1b2c3d4" = Some "failed".
Proof.
  destruct (run_job_records_the_failure "a1b2c3d4"
              "'>=' not supported between instances of 'str' and 'float'"
              {[ "a1b2c3d4" := sample_job "queued" ]} (sample_job "queued")
              (lookup_singleton_eq _ _)) as (store' & Hrun & Hstatus & _).
  exists store'. split; [exact Hrun | exact Hstatus].
Defined.

Ltac in_list := repeat first [apply list_elem_of_here | apply list_elem_of_further].

(** What a stored job satisfies after any sequence of writes. *)
Lemma apply_op_keeps_records (op : store_op) (store : jobs_store) :
  (forall id job, store !! id = Some job ->
     (Job.status job = "completed" -> is_Some (Job.result job)) /\
     (Job.status job = "failed" -> is_Some (Job.error job)) /\
     Job.status job ∈ ["queued"; "processing"; "completed"; "failed"; "cancelled"]) ->
  forall id job, apply_op store op !! id = Some job ->
    (Job.status job = "completed" -> is_Some (Job.result job)) /\
    (Job.status job = "failed" -> is_Some (Job.error job)) /\
    Job.status job ∈ ["queued"; "processing"; "completed"; "failed"; "cancelled"].
Proof.
  intros Hinv id job. destruct op as [jid request url max now | jid | jid workflow]; cbn.
  - unfold store_new_job. destruct (decide (jid = id)) as [-> | Hne].
    + rewrite lookup_insert_eq. intros [= <-]. cbn.
      split; [discriminate | split; [discriminate | in_list]].
    + rewrite lookup_insert_ne by exact Hne. apply Hinv.
  - unfold cancel_job. destruct (store !! jid) as [j|] eqn:Hj; [| apply Hinv].
    destruct (bool_decide _) eqn:Hterm; [apply Hinv |]. cbn [snd].
    destruct (decide (jid = id)) as [-> | Hne].
    + rewrite lookup_insert_eq. intros [= <-]. cbn.
      split; [discriminate | split; [discriminate | in_list]].
    + rewrite lookup_insert_ne by exact Hne. apply Hinv.
  - destruct (store !! jid) as [j|] eqn:Hj.
    + destruct workflow as [result|e].
      * rewrite (run_job_returns _ _ _ _ Hj).
        destruct (decide (jid = id)) as [-> | Hne].
        -- rewrite lookup_insert_eq. intros [= <-]. cbn.
           split; [eauto | split; [discriminate | in_list]].
        -- rewrite lookup_insert_ne by exact Hne. apply Hinv.
      * rewrite (run_job_raises _ _ _ _ Hj).
        destruct (decide (jid = id)) as [-> | Hne].
        -- rewrite lookup_insert_eq. intros [= <-]. cbn.
           split; [discriminate | split; [eauto | in_list]].
        -- rewrite lookup_insert_ne by exact Hne. apply Hinv.
    + rewrite (run_job_missing _ _ _ Hj). apply Hinv.
Qed.

Lemma apply_ops_keep_records (ops : list store_op) : forall store : jobs_store,
  (forall id job, store !! id = Some job ->
     (Job.status job = "completed" -> is_Some (Job.result job)) /\
     (Job.status job = "failed" -> is_Some (Job.error job)) /\
     Job.status job ∈ ["queued"; "processing"; "completed"; "failed"; "cancelled"]) ->
  forall id job, apply_ops ops store !! id = Some job ->
    (Job.status job = "completed" -> is_Some (Job.result job)) /\
    (Job.status job = "failed" -> is_Some (Job.error job)) /\
    Job.status job ∈ ["queued"; "processing"; "completed"; "failed"; "cancelled"].
Proof.
  induction ops as [|op ops IH]; intros store Hinv; [exact Hinv |].
  apply (IH (apply_op store op)). now apply apply_op_keeps_records.
Qed.

Lemma reachable_store_records (ops : list store_op) (id : string) (job : Job.t) :
  apply_ops ops ∅ !! id = Some job ->
  (Job.status job = "completed" -> is_Some (Job.result job)) /\
  (Job.status job = "failed" -> is_Some (Job.error job)) /\
  Job.status job ∈ ["queued"; "processing"; "completed"; "failed"; "cancelled"].
Proof.
  apply apply_ops_keep_records. intros i j Hl. now rewrite lookup_empty in Hl.
Qed.

(** In every store the program can build from the empty one (jobs
    created, cancel requests, background tasks, in any order and on any
    ids), a job with status [completed] has a result, a job with status
    [failed] has an error message, and every status is one of the five
    lifecycle values. *)
Theorem stored_jobs_are_consistent (ops : list store_op) (id : string) (job : Job.t) :
  apply_ops ops ∅ !! id = Some job ->
  (Job.status job = "completed" -> is_Some (Job.result job)) /\
  (Job.status job = "failed" -> is_Some (Job.error job)) /\
  Job.status job ∈ ["queued"; "processing"; "completed"; "failed"; "cancelled"].
Proof. apply reachable_store_records. Qed.

Lemma stored_jobs_are_consistent_witness :
  Job.status (Job.set_status "cancelled" (sample_job "queued"))
    ∈ ["queued"; "processing"; "completed"; "failed"; "cancelled"].
Proof.
  apply (stored_jobs_are_consistent
           [OpCreate "a1b2c3d4" "Create a bar chart showing sales by region"
              "https://example.com/sales.csv" 2 "2025-01-01T00:00:00";
            OpCancel "a1b2c3d4"]
           "a1b2c3d4" (Job.set_status "cancelled" (sample_job "queued"))).
  vm_compute. reflexivity.
Defined.


(** A state with a NaN in the critic's evaluation, which [json.loads]
    decodes from the literal [NaN], is stored and cannot be rendered. *)
Example result_with_nan_is_not_served :
  let result := set_critic_evaluation [("average_score", PFloat FNaN)]
                  (initial_state "Create a bar chart" "https://example.com/data.csv" 2) in
  let store := apply_ops [OpCreate "a1b2c3d4" "Create a bar chart"
                            "https://example.com/data.csv" 2 "2025-01-01T00:00:00";
                          OpRunJob "a1b2c3d4" (Returns result)] ∅ in
  Job.status <$> store !! "a1b2c3d4" = Some "completed" /\
  get_job_result "a1b2c3d4" store
  = Raises "Out of range float values are not JSON compliant".
Proof. vm_compute. split; reflexivity. Qed.



(** A cancel request changes at most the status of the one job it names:
    it adds and removes no job, an unknown id is answered 404 with the
    store untouched, and every stored job keeps its request, its creation
    time, its result and its error. *)
Theorem cancel_job_changes_one_status (job_id : string) (store : jobs_store) :
  dom (cancel_job job_id store).2 = dom store /\
  (store !! job_id = None ->
   cancel_job job_id store = (HTTPException 404 "Job not found", store)) /\
  (forall id job,
     store !! id = Some job ->
     exists job',
       (cancel_job job_id store).2 !! id = Some job' /\
       Job.user_request job' = Job.user_request job /\
       Job.dataset_url job' = Job.dataset_url job /\
       Job.max_iterations job' = Job.max_iterations job /\
       Job.created_at job' = Job.created_at job /\
       Job.result job' = Job.result job /\
       Job.error job' = Job.error job /\
       (Job.status job' = Job.status job \/
        (id = job_id /\ Job.status job' = "cancelled"))).
Proof.
  unfold cancel_job.
  destruct (store !! job_id) as [j|] eqn:Hj.
  - destruct (bool_decide _); cbn [snd].
    + split; [reflexivity |]. split; [discriminate |].
      intros id job H. exists job. repeat split; [exact H | now left].
    + split; [apply dom_insert_lookup_L; eauto |]. split; [discriminate |].
      intros id job H. destruct (decide (job_id = id)) as [-> | Hne].
      * rewrite lookup_insert_eq. rewrite Hj in H. injection H as ->.
        eexists. split; [reflexivity |]. repeat split. now right.
      * rewrite lookup_insert_ne by exact Hne.
        exists job. repeat split; [exact H | now left].
  - cbn [snd]. split; [reflexivity |]. split; [reflexivity |].
    intros id job H. exists job. repeat split; [exact H | now left].
Qed.

Lemma slice_from_drop {A : Type} (start : Z) (l : list A) :
  exists k : nat,
    slice_from start l = drop k l /\
    Z.of_nat k = (if start <? 0 then Z.max 0 (start + Z.of_nat (length l))
                  else Z.min start (Z.of_nat (length l))).
Proof.
  unfold slice_from. cbv zeta.
  exists (Z.to_nat (if start <? 0 then Z.max 0 (start + Z.of_nat (length l))
                    else Z.min start (Z.of_nat (length l)))).
  split; [reflexivity |].
  destruct (Z.ltb_spec start 0); lia.
Qed.

(** [list_jobs] slices the stored jobs from the end: ["total"] counts all
    jobs; ["jobs"] is a tail of the jobs in the order they were stored,
    oldest first; for a positive limit it holds the last [limit] jobs (all
    of them when there are fewer), for a negative limit it leaves out the
    first [-limit] jobs, and for limit 0 it holds every job. *)
Theorem list_jobs_is_a_tail (items : list (string * Job.t)) (limit : Z) :
  (list_jobs items limit).1 = Z.of_nat (length items) /\
  (exists older, map summarize items = older ++ (list_jobs items limit).2) /\
  Z.of_nat (length (list_jobs items limit).2) =
    (if 0 <? limit then Z.min limit (Z.of_nat (length items))
     else Z.max 0 (Z.of_nat (length items) + limit)) /\
  (list_jobs items 0).2 = map summarize items.
Proof.
  split; [reflexivity |].
  unfold list_jobs. cbn [snd].
  destruct (slice_from_drop (- limit) items) as (k & -> & Hk).
  split; [| split].
  - exists (take k (map summarize items)).
    rewrite <- (take_drop k (map summarize items)) at 1.
    f_equal. apply skipn_map.
  - rewrite length_map, length_drop. revert Hk.
    destruct (Z.ltb_spec (- limit) 0), (Z.ltb_spec 0 limit); intros Hk; lia.
  - change (- 0) with 0.
    destruct (slice_from_drop 0 items) as (k0 & -> & Hk0).
    change (0 <? 0) with false in Hk0. cbv iota in Hk0.
    assert (k0 = 0%nat) as -> by lia. reflexivity.
Qed.

(** A job that stopped at the budget has nothing to download: once the
    background task has stored a state the workflow returned with the
    iteration count at the budget, the download endpoint answers 404
    whatever files exist, although the job is [completed]. *)
Theorem budget_ended_job_has_no_download (json_loads : decoder) (ws : list world)
    (fs0 : gset string) (request url : string) (max : Z) (s : VisualizationState)
    (job_id : string) (store : jobs_store) (job : Job.t) :
  0 < max ->
  run_visualization_workflow json_loads ws fs0 request url max = Some (Returns s) ->
  iteration s = max_iterations s ->
  store !! job_id = Some job ->
  exists store',
    run_job job_id (Returns s) store = Returns store' /\
    Job.status <$> store' !! job_id = Some "completed" /\
    forall fs,
      download_visualization job_id store' fs =
      Returns (Error 404 "Visualization file not found").
Proof.
  intros Hmax Hrun Hit H.
  destruct (workflow_returns_ending _ _ _ _ _ _ _ Hmax Hrun)
    as (_ & _ & _ & _ & Hpath & _).
  rewrite (run_job_returns _ _ _ _ H). eexists. split; [reflexivity |].
  split; [now rewrite lookup_insert_eq |].
  intros fs. unfold download_visualization. rewrite lookup_insert_eq. cbn.
  now rewrite Hpath.
Qed.

Lemma budget_ended_job_has_no_download_witness :
  exists store',
    run_job "a1b2c3d4"
      (Returns (st (run sample_decoder (repeat (model_replies "print(1)") 8)
                      (initial_config ∅ "Create a bar chart"
                         "https://example.com/data.csv" 2))))
      {[ "a1b2c3d4" := sample_job "queued" ]} = Returns store' /\
    Job.status <$> store' !! "a1b2c3d4" = Some "completed" /\
    forall fs,
      download_visualization "a1b2c3d4" store' fs =
      Returns (Error 404 "Visualization file not found").
Proof.
  apply (budget_ended_job_has_no_download sample_decoder
           (repeat (model_replies "print(1)") 8) ∅
           "Create a bar chart" "https://example.com/data.csv" 2
           (st (run sample_decoder (repeat (model_replies "print(1)") 8)
                  (initial_config ∅ "Create a bar chart"
                     "https://example.com/data.csv" 2)))
           "a1b2c3d4" {[ "a1b2c3d4" := sample_job "queued" ]} (sample_job "queued"));
    [reflexivity | vm_compute; reflexivity | vm_compute; reflexivity
    | apply lookup_singleton_eq].
Defined.
